(** * api-docs-normalizer: endpoint extraction and OpenAPI normalisation

    A shallow embedding of [api_normalizer/parser.py] (class [Parser]),
    [api_normalizer/normalizer.py] (class [Normalizer]) and of
    [Processor._process_content] of [api_normalizer/cli.py].

    Text.  A Python [str] is a sequence of Unicode code points, here a
    list of [N].  What Python decides by a finite rule is defined in
    full: white space ([str.isspace], [str.strip], the [re] class [\s])
    and the comparison [re.IGNORECASE] makes for the ASCII letters of a
    pattern.  What Python reads off the Unicode character database is
    defined on ASCII and is otherwise a parameter, the class [Unicode]:
    the [re] class [\w] outside ASCII, and [str.lower] and [str.upper] on
    text that is not all ASCII.  Every property below holds for every
    such database.

    Dictionaries.  A Python [dict] keeps its keys in insertion order, and
    that order is observable in the serialised document, so a dictionary is
    an association list without duplicate keys ([Dict.set] overwrites in
    place, appends otherwise).

    Sets.  The set comprehension of [_extract_tags] is a [gset]. *)

From Stdlib Require Import Ascii String NArith.
From Stdlib.Strings Require Import Byte.
From stdpp Require Import base option list gmap sorting.

Local Set Warnings "-register-all,-via-type-mismatch,-via-type-remapping".

(** ** Text literals *)

Abbreviation str := (list N).

(** String literals for ASCII text: ["GET"] is the list of its code
    points, and ["/"%cp] is the code point of one character. *)
Module Literal.

Inductive cps : Set := cnil | ccons (n : N) (s : cps).

Fixpoint of_bytes (bs : list byte) : option cps :=
  match bs with
  | [] => Some cnil
  | b :: bs' =>
      if (Byte.to_N b <? 128)%N then ccons (Byte.to_N b) <$> of_bytes bs'
      else None
  end.

Fixpoint to_bytes (s : cps) : option (list byte) :=
  match s with
  | cnil => Some []
  | ccons n s' =>
      if (n <? 128)%N then
        match Byte.of_N n, to_bytes s' with
        | Some b, Some l => Some (b :: l)
        | _, _ => None
        end
      else None
  end.

Definition char_of_bytes (bs : list byte) : option N :=
  match bs with
  | [b] => if (Byte.to_N b <? 128)%N then Some (Byte.to_N b) else None
  | _ => None
  end.

Definition char_to_bytes (n : N) : option (list byte) :=
  if (n <? 128)%N then (λ b, [b]) <$> Byte.of_N n else None.

End Literal.

Declare Scope py_scope.
Delimit Scope py_scope with py.
Declare Scope cp_scope.
Delimit Scope cp_scope with cp.
String Notation list Literal.of_bytes Literal.to_bytes
  (via Literal.cps mapping [[nil] => Literal.cnil, [cons] => Literal.ccons])
  : py_scope.
String Notation N Literal.char_of_bytes Literal.char_to_bytes : cp_scope.
Local Open Scope py_scope.

(** ** Characters and strings as Python sees them *)

(** What is read off the Unicode character database outside ASCII. *)
Class Unicode : Type := {
  (** [c.isalnum()] for a code point from U+0080 on *)
  isalnum_wide : N → bool;
  (** [s.lower()] for a text with a character outside ASCII *)
  lower_wide : str → str;
  (** [s.upper()] for a text with a character outside ASCII *)
  upper_wide : str → str
}.

Module Py.

(** [Py_UNICODE_ISSPACE]: used by [str.strip] and by the [re] class [\s]
    alike.  TAB..CR, FS..US, SPACE, U+0085, U+00A0, U+1680,
    U+2000..U+200A, U+2028, U+2029, U+202F, U+205F, U+3000. *)
Definition isspace (c : N) : bool :=
  ((9 <=? c) && (c <=? 13) || (28 <=? c) && (c <=? 32)
   || (c =? 133) || (c =? 160) || (c =? 5760)
   || (8192 <=? c) && (c <=? 8202)
   || (c =? 8232) || (c =? 8233) || (c =? 8239) || (c =? 8287)
   || (c =? 12288))%N.

Definition isascii (c : N) : bool := (c <? 128)%N.

(** An ASCII capital / small letter. *)
Definition ascii_upper (c : N) : bool := ((65 <=? c) && (c <=? 90))%N.
Definition ascii_lower (c : N) : bool := ((97 <=? c) && (c <=? 122))%N.
Definition ascii_digit (c : N) : bool := ((48 <=? c) && (c <=? 57))%N.

(** The [re] class [\w] on [str] patterns: alphanumeric or underscore. *)
Definition isword `{Unicode} (c : N) : bool :=
  if isascii c
  then ascii_digit c || ascii_upper c || ascii_lower c || (c =? 95)%N
  else isalnum_wide c.

Definition lower_char (c : N) : N :=
  if ascii_upper c then (c + 32)%N else c.

Definition upper_char (c : N) : N :=
  if ascii_lower c then (c - 32)%N else c.

Fixpoint sforall (p : N → bool) (s : str) : bool :=
  match s with
  | [] => true
  | c :: s' => p c && sforall p s'
  end.

(** [s.lower()] and [s.upper()] *)
Definition lower `{Unicode} (s : str) : str :=
  if sforall isascii s then lower_char <$> s else lower_wide s.

Definition upper `{Unicode} (s : str) : str :=
  if sforall isascii s then upper_char <$> s else upper_wide s.

Fixpoint lstrip (s : str) : str :=
  match s with
  | [] => []
  | c :: s' => if isspace c then lstrip s' else s
  end.

Fixpoint rstrip (s : str) : str :=
  match s with
  | [] => []
  | c :: s' =>
      match rstrip s' with
      | [] => if isspace c then [] else [c]
      | r => c :: r
      end
  end.

(** [s.strip()] *)
Definition strip (s : str) : str := lstrip (rstrip s).

(** [s.split(sep)] for a one-character separator: always at least one
    piece, empty pieces kept. *)
Fixpoint split (sep : N) (s : str) : list str :=
  match s with
  | [] => [[]]
  | c :: s' =>
      if decide (c = sep) then [] :: split sep s'
      else match split sep s' with
           | piece :: rest => (c :: piece) :: rest
           | [] => [[c]]
           end
  end.

(** [s.startswith(p)] *)
Fixpoint startswith (p s : str) : bool :=
  match p, s with
  | [], _ => true
  | _ :: _, [] => false
  | c :: p', d :: s' => bool_decide (c = d) && startswith p' s'
  end.

(** [sep.join(parts)] *)
Fixpoint join (sep : str) (parts : list str) : str :=
  match parts with
  | [] => []
  | [part] => part
  | part :: parts' => part ++ sep ++ join sep parts'
  end.

(** Truthiness of a [str] and of a [list]. *)
Definition truthy (s : str) : bool :=
  match s with [] => false | _ => true end.

Definition nonempty {A} (l : list A) : bool :=
  match l with [] => false | _ => true end.

(** [s <= t] on [str]: the lexicographic order of the code points, the
    order [sorted] puts strings in. *)
Fixpoint leb (s t : str) : bool :=
  match s, t with
  | [], _ => true
  | _ :: _, [] => false
  | c :: s', d :: t' => (c <? d)%N || (c =? d)%N && leb s' t'
  end.

Definition le (s t : str) : Prop := leb s t = true.

Global Instance le_dec : RelDecision le :=
  λ s t, decide (leb s t = true).

End Py.

(** ** Regular expressions, as far as the two patterns need them

    A backtracking matcher in the list-of-successes style: [run] returns
    every way the expression can match a prefix of the input, in the order
    in which [re] tries them; the first one is the match [re] reports. *)

Module Re.

Inductive regex : Type :=
| Eps                              (* the empty expression *)
| Lit (c : N)                      (* a literal character *)
| Cls (p : N → bool)               (* a one-character class *)
| Plus (p : N → bool)              (* greedy [+] on a class *)
| Seq (r1 r2 : regex)
| Alt (r1 r2 : regex)
| Group (n : nat) (r : regex).     (* capturing group number [n] *)

(** Group number to captured text. *)
Abbreviation groups := (gmap nat str).

Definition state : Type := str * groups.

(** The characters an ASCII pattern character [c] matches under
    [re.IGNORECASE]: a letter matches itself in either case, and besides
    [I] and [i] match U+0130 and U+0131, [S] and [s] match U+017F, [K]
    and [k] match U+212A; any other character matches itself only.  (Both
    patterns are ASCII.) *)
Definition ci_match (c d : N) : bool :=
  if Py.ascii_upper c || Py.ascii_lower c then
    let lo := Py.lower_char c in
    (Py.lower_char d =? lo)%N
    || (lo =? 105)%N && ((d =? 304) || (d =? 305))%N
    || (lo =? 115)%N && (d =? 383)%N
    || (lo =? 107)%N && (d =? 8490)%N
  else (d =? c)%N.

(** Literal comparison, with and without [re.IGNORECASE]. *)
Definition lit_eq (ignorecase : bool) (c d : N) : bool :=
  if ignorecase then ci_match c d else bool_decide (c = d).

(** Remainders after a greedy [p*], longest run first. *)
Fixpoint star (p : N → bool) (s : str) : list str :=
  match s with
  | [] => [[]]
  | c :: s' => if p c then star p s' ++ [s] else [s]
  end.

Definition plus (p : N → bool) (s : str) : list str :=
  match s with
  | [] => []
  | c :: s' => if p c then star p s' else []
  end.

(** The text consumed between input [s] and remainder [s']. *)
Definition consumed (s s' : str) : str :=
  take (length s - length s') s.

Fixpoint run (ic : bool) (r : regex) (st : state) : list state :=
  match r with
  | Eps => [st]
  | Lit c =>
      match st.1 with
      | d :: s' => if lit_eq ic c d then [(s', st.2)] else []
      | [] => []
      end
  | Cls p =>
      match st.1 with
      | d :: s' => if p d then [(s', st.2)] else []
      | [] => []
      end
  | Plus p => (λ s', (s', st.2)) <$> plus p st.1
  | Seq r1 r2 => run ic r1 st ≫= run ic r2
  | Alt r1 r2 => run ic r1 st ++ run ic r2 st
  | Group n r =>
      (λ st', (st'.1, <[n := consumed st.1 st'.1]> st'.2)) <$> run ic r st
  end.

(** [pattern.match(s)]: the first success at position 0, if any. *)
Definition rmatch (ic : bool) (r : regex) (s : str) : option state :=
  head (run ic r (s, ∅)).

(** A literal word, character by character. *)
Fixpoint word (w : str) : regex :=
  match w with
  | [] => Eps
  | c :: w' => Seq (Lit c) (word w')
  end.

(** An alternation of literal words, [w1|w2|...], tried left to right. *)
Fixpoint alts (ws : list str) : regex :=
  match ws with
  | [] => Cls (λ _, false)
  | w :: ws' =>
      match ws' with
      | [] => word w
      | _ :: _ => Alt (word w) (alts ws')
      end
  end.

(** [pattern.findall(s)] for a pattern with one group whose matches are
    never empty: non-overlapping matches, scanning left to right; after a
    match the scan resumes where the match ended.  [skip] counts the
    characters of the last match still to be passed over. *)
Fixpoint findall_from (ic : bool) (r : regex) (skip : nat) (s : str)
  : list str :=
  match s with
  | [] => []
  | _ :: s' =>
      match skip with
      | S k => findall_from ic r k s'
      | O =>
          match rmatch ic r s with
          | Some (rest, g) =>
              default [] (g !! 1) ::
                findall_from ic r (length s - length rest - 1) s'
          | None => findall_from ic r 0 s'
          end
      end
  end.

Definition findall (ic : bool) (r : regex) (s : str) : list str :=
  findall_from ic r 0 s.

End Re.

(** ** parser.py *)

Record Endpoint : Type := mkEndpoint {
  method : str;
  path : str;
  description : str;
  parameters : list str
}.

(** [Endpoint.__init__]: the method is upper-cased, [None] defaults are
    replaced ([x or ""], [x or []]). *)
Definition Endpoint_init `{Unicode} (m p : str) (d : option str)
    (ps : option (list str)) : Endpoint :=
  {| method := Py.upper m;
     path := p;
     description := default [] d;
     parameters := default [] ps |}.

Module Parser.

Import Re.

Definition HTTP_METHODS : list str :=
  ["GET"; "POST"; "PUT"; "DELETE"; "PATCH"; "HEAD"; "OPTIONS"].

(** The alternation [(GET|POST|PUT|DELETE|PATCH|HEAD|OPTIONS)], group 1. *)
Definition HTTP_METHODS_re : regex := Group 1 (alts HTTP_METHODS).

(** [^(GET|...|OPTIONS)\s+(/[^\s]+)] with [re.IGNORECASE | re.MULTILINE].
    Both call sites use [Pattern.match], which starts at position 0, where
    [^] always holds; the anchor therefore has no node of its own. *)
Definition ENDPOINT_PATTERN : regex :=
  Seq HTTP_METHODS_re
    (Seq (Plus Py.isspace)
       (Group 2 (Seq (Lit "/"%cp) (Plus (λ c, negb (Py.isspace c)))))).

Definition ENDPOINT_match (s : str) : option state :=
  rmatch true ENDPOINT_PATTERN s.

(** [\{(\w+)\}], no flags. *)
Definition PARAM_PATTERN `{Unicode} : regex :=
  Seq (Lit "{"%cp) (Seq (Group 1 (Plus Py.isword)) (Lit "}"%cp)).

Definition MAX_DESCRIPTION_LINES : nat := 3.

Definition _extract_path_parameters `{Unicode} (path : str) : list str :=
  findall false PARAM_PATTERN path.

Definition _should_stop_description_extraction
    (line : str) (description_parts : list str) : bool :=
  if bool_decide (is_Some (ENDPOINT_match line)) then true
  else if Py.startswith "#" line then true
  else if negb (Py.truthy line) && Py.nonempty description_parts then true
  else false.

(** The [for line_index in range(current_index, end_index)] loop with its
    [break]; [description_parts] is the list being appended to.  Every
    index of the range is below [len(lines)], so the lookup never takes
    its default. *)
Fixpoint description_loop (lines : list str) (indices : list nat)
    (description_parts : list str) : list str :=
  match indices with
  | [] => description_parts
  | line_index :: indices' =>
      let line := Py.strip (default [] (lines !! line_index)) in
      if _should_stop_description_extraction line description_parts
      then description_parts
      else description_loop lines indices'
             (if Py.truthy line then description_parts ++ [line]
              else description_parts)
  end.

Definition _extract_description (lines : list str) (start_index : nat)
  : str :=
  let current_index := start_index + 1 in
  let end_index :=
    Nat.min (current_index + MAX_DESCRIPTION_LINES) (length lines) in
  let description_parts :=
    description_loop lines
      (seq current_index (end_index - current_index)) [] in
  Py.strip (Py.join " " description_parts).

Definition _parse_line_for_endpoint `{Unicode} (line : str)
    (all_lines : list str) (line_index : nat) : option Endpoint :=
  match ENDPOINT_match (Py.strip line) with
  | None => None
  | Some (_, g) =>
      let method := default [] (g !! 1) in
      let path := default [] (g !! 2) in
      let parameters := _extract_path_parameters path in
      let description := _extract_description all_lines line_index in
      Some (Endpoint_init method path (Some description) (Some parameters))
  end.

(** The [for line_index, line in enumerate(lines)] loop of [parse]. *)
Fixpoint parse_loop `{Unicode} (all_lines : list str) (line_index : nat)
    (rest : list str) : list Endpoint :=
  match rest with
  | [] => []
  | line :: rest' =>
      match _parse_line_for_endpoint line all_lines line_index with
      | Some endpoint => endpoint :: parse_loop all_lines (S line_index) rest'
      | None => parse_loop all_lines (S line_index) rest'
      end
  end.

Definition parse `{Unicode} (content : str) : list Endpoint :=
  let lines := Py.split 10 content in
  parse_loop lines 0 lines.

End Parser.

(** ** normalizer.py *)

(** Insertion-ordered dictionaries with [str] keys. *)
Module Dict.
Section dict.
Context {V : Type}.

Fixpoint get (k : str) (d : list (str * V)) : option V :=
  match d with
  | [] => None
  | (k', v) :: d' => if decide (k' = k) then Some v else get k d'
  end.

(** [k in d] *)
Definition mem (k : str) (d : list (str * V)) : bool :=
  bool_decide (is_Some (get k d)).

(** [d[k] = v]: an existing key keeps its position. *)
Fixpoint set (k : str) (v : V) (d : list (str * V)) : list (str * V) :=
  match d with
  | [] => [(k, v)]
  | (k', v') :: d' =>
      if decide (k' = k) then (k, v) :: d' else (k', v') :: set k v d'
  end.

Definition keys (d : list (str * V)) : list str := d.*1.
End dict.
End Dict.

(** The values a schema document is made of. *)
Inductive value : Type :=
| VStr (s : str)
| VBool (b : bool)
| VList (l : list value)
| VDict (d : list (str * value)).

(** [v[k]] on a value that is a dictionary. *)
Definition vget (k : str) (v : value) : option value :=
  match v with
  | VDict d => Dict.get k d
  | _ => None
  end.

Module Normalizer.

(** U+00F3, the accented letter of the two Spanish texts. *)
Definition o_acute : str := [243%N].

Definition OPENAPI_VERSION : str := "3.0.0".
Definition API_VERSION : str := "1.0.0".
Definition DEFAULT_SERVER_URL : str := "https://api.example.com".
Definition DEFAULT_SERVER_DESCRIPTION : str :=
  "Servidor de producci" ++ o_acute ++ "n".
Definition DEFAULT_API_DESCRIPTION : str :=
  "API normalizada desde documentaci" ++ o_acute ++ "n no estructurada".
Definition SUCCESS_STATUS_CODE : str := "200".
Definition SUCCESS_DESCRIPTION : str := "Respuesta exitosa".
Definition DEFAULT_CONTENT_TYPE : str := "application/json".

Definition _extract_tag_from_path (path : str) : str :=
  let path_segments := Py.split "/"%cp path in
  if (length path_segments <? 2)%nat then "default"
  else
    let first_segment := default [] (path_segments !! 1) in
    let tag := default [] (Py.split "{"%cp first_segment !! 0) in
    if Py.truthy tag then tag else "default".

Definition _extract_path_segments (path : str) : list str :=
  filter (λ segment,
            Py.truthy segment && negb (Py.startswith "{" segment) = true)
         (Py.split "/"%cp path).

Definition _generate_operation_id `{Unicode} (endpoint : Endpoint) : str :=
  let method := Py.lower endpoint.(method) in
  let path_segments := _extract_path_segments endpoint.(path) in
  if negb (Py.nonempty path_segments) then method ++ "_root"
  else
    let resource := default [] (path_segments !! 0) in
    if Py.nonempty endpoint.(parameters) then
      method ++ "_" ++ resource ++ "_by_"
        ++ default [] (endpoint.(parameters) !! 0)
    else if (1 <? length path_segments)%nat then
      let subresource := default [] (last path_segments) in
      method ++ "_" ++ resource ++ "_" ++ subresource
    else method ++ "_" ++ resource.

Definition _create_path_parameters (param_names : list str)
  : list value :=
  (λ param_name,
     VDict [("name", VStr param_name);
            ("in", VStr "path");
            ("required", VBool true);
            ("schema", VDict [("type", VStr "string")]);
            ("description", VStr ("Identificador del " ++ param_name))])
  <$> param_names.

Definition _create_default_responses : value :=
  VDict
    [(SUCCESS_STATUS_CODE,
      VDict [("description", VStr SUCCESS_DESCRIPTION);
             ("content",
              VDict [(DEFAULT_CONTENT_TYPE,
                      VDict [("schema",
                              VDict [("type", VStr "object")])])])])].

Definition _create_operation `{Unicode} (endpoint : Endpoint) : value :=
  let tag := _extract_tag_from_path endpoint.(path) in
  let summary :=
    if Py.truthy endpoint.(description) then endpoint.(description)
    else endpoint.(method) ++ " " ++ endpoint.(path) in
  let operation :=
    [("summary", VStr summary);
     ("operationId", VStr (_generate_operation_id endpoint));
     ("tags", VList [VStr tag])] in
  let operation :=
    if Py.truthy endpoint.(description)
    then Dict.set "description" (VStr endpoint.(description)) operation
    else operation in
  let operation :=
    if Py.nonempty endpoint.(parameters)
    then Dict.set "parameters"
           (VList (_create_path_parameters endpoint.(parameters))) operation
    else operation in
  VDict (Dict.set "responses" _create_default_responses operation).

(** One turn of the loop of [_build_paths]. *)
Definition build_paths_step `{Unicode}
    (paths : list (str * list (str * value))) (endpoint : Endpoint)
  : list (str * list (str * value)) :=
  let paths :=
    if negb (Dict.mem endpoint.(path) paths)
    then Dict.set endpoint.(path) [] paths else paths in
  let operation := _create_operation endpoint in
  Dict.set endpoint.(path)
    (Dict.set (Py.lower endpoint.(method)) operation
       (default [] (Dict.get endpoint.(path) paths)))
    paths.

Definition _build_paths `{Unicode} (endpoints : list Endpoint)
  : list (str * list (str * value)) :=
  foldl build_paths_step [] endpoints.

Definition _extract_tags (endpoints : list Endpoint) : gset str :=
  list_to_set ((λ endpoint, _extract_tag_from_path endpoint.(path))
               <$> endpoints).

Definition _build_info_section (title : str) : value :=
  VDict [("title", VStr title);
         ("version", VStr API_VERSION);
         ("description", VStr DEFAULT_API_DESCRIPTION)].

Definition _build_servers_section : value :=
  VList [VDict [("url", VStr DEFAULT_SERVER_URL);
                ("description", VStr DEFAULT_SERVER_DESCRIPTION)]].

(** [sorted(tags)]: the elements of the set in ascending [str] order. *)
Definition sorted (tags : gset str) : list str :=
  merge_sort Py.le (elements tags).

Definition _build_tags_section (tags : gset str) : list value :=
  (λ tag, VDict [("name", VStr tag)]) <$> sorted tags.

Definition normalize `{Unicode} (endpoints : list Endpoint) (title : str)
  : value :=
  let paths := _build_paths endpoints in
  let tags := _extract_tags endpoints in
  VDict [("openapi", VStr OPENAPI_VERSION);
         ("info", _build_info_section title);
         ("servers", _build_servers_section);
         ("tags", VList (_build_tags_section tags));
         ("paths", VDict (prod_map id VDict <$> paths))].

End Normalizer.

Import Parser Normalizer.

(** ** cli.py *)

Module Processor.

(** [Processor._process_content]: the text is parsed and the records are
    normalised; the second component is what the call prints on the
    diagnostic stream. *)
Definition _process_content `{Unicode} (content title : str)
  : value * list str :=
  let endpoints := parse content in
  let stderr :=
    if negb (Py.nonempty endpoints)
    then ["Warning: No se detectaron endpoints en el archivo"]
    else [] in
  (normalize endpoints title, stderr).

End Processor.

Import Processor.

(** * Notions used to state the properties *)

(** A database without characters outside ASCII, for the examples, which
    are all on ASCII text. *)
Definition ascii_only : Unicode :=
  {| isalnum_wide := λ _, false; lower_wide := id; upper_wide := id |}.

(** The literal segments of a path in the words of the specification: the
    [/]-separated parts that are not empty and do not begin with a brace. *)
Definition literal_segments (path : str) : list str :=
  filter (λ seg, seg ≠ "" ∧ head seg ≠ Some "{"%cp)
         (Py.split "/"%cp path).

(** The characters of [s] before the first occurrence of [c]. *)
Fixpoint before_first (c : N) (s : str) : str :=
  match s with
  | [] => []
  | d :: s' => if decide (d = c) then [] else d :: before_first c s'
  end.

(** The distinct elements of a list in order of first occurrence. *)
Fixpoint first_occurrences (l : list str) : list str :=
  match l with
  | [] => []
  | x :: l' => x :: filter (λ y, y ≠ x) (first_occurrences l')
  end.

(** The last endpoint of the sequence declared for path [p] under the
    lower-cased method [m]. *)
Definition last_declared `{Unicode} (p m : str) (endpoints : list Endpoint)
  : option Endpoint :=
  last (filter (λ e, path e = p ∧ Py.lower (method e) = m) endpoints).

(** [s] consists of white space only / has no white space. *)
Definition all_space (s : str) : Prop :=
  Py.sforall Py.isspace s = true.

Definition no_space (s : str) : Prop :=
  Py.sforall (λ c, negb (Py.isspace c)) s = true.

(** [s] is empty or begins with a character outside the class [p]: a run
    of [p]-characters ending just before [s] cannot be extended. *)
Definition stops (p : N → bool) (s : str) : Prop :=
  match s with
  | [] => True
  | c :: _ => p c = false
  end.

(** [tok] is one of the seven method tokens as [re.IGNORECASE] reads it:
    as long as the token and, character by character, matched by it. *)
Definition method_token (tok : str) : Prop :=
  ∃ M, M ∈ HTTP_METHODS ∧ Forall2 (λ c d, Re.lit_eq true c d = true) M tok.


(** The description in the words of the specification.  [collect] goes
    through the window of lines that follow a declaration: it stops at a
    line that is itself a declaration, at a heading, and at an empty line
    once a fragment has been collected; an empty line before the first
    fragment is passed over; any other line is a fragment. *)
Fixpoint collect (window : list str) (fragments : list str) : list str :=
  match window with
  | [] => fragments
  | raw :: window' =>
      let line := Py.strip raw in
      if bool_decide (is_Some (ENDPOINT_match line)) then fragments
      else if Py.startswith "#" line then fragments
      else if decide (line = "") then
        if decide (fragments = []) then collect window' fragments
        else fragments
      else collect window' (fragments ++ [line])
  end.

Definition following_description (lines : list str) (i : nat) : str :=
  Py.strip (Py.join " " (collect (take 3 (drop (S i) lines)) [])).

(** The placeholders of a path, left to right: at a position where a brace,
    a non-empty run of word characters and a closing brace begin, the run
    is a name and the scan goes on after the closing brace; at any other
    position the scan moves on by one character. *)
Inductive Placeholders `{Unicode} : str → list str → Prop :=
| ph_end : Placeholders "" []
| ph_hit w rest names :
    w ≠ "" → Py.sforall Py.isword w = true →
    Placeholders rest names →
    Placeholders ("{"%cp :: w ++ "}"%cp :: rest) (w :: names)
| ph_skip c s names :
    (∀ w rest, w ≠ "" → Py.sforall Py.isword w = true →
               c :: s ≠ "{"%cp :: w ++ "}"%cp :: rest) →
    Placeholders s names →
    Placeholders (c :: s) names.

(** The method and path a line declares, read from the line alone. *)
Definition declared_on `{Unicode} (line : str) : option (str * str) :=
  (λ st : Re.state,
     (Py.upper (default [] (st.2 !! 1)), default [] (st.2 !! 2)))
  <$> ENDPOINT_match (Py.strip line).

(** [s] does not contain the character [c]. *)
Definition lacks (c : N) (s : str) : Prop :=
  Py.sforall (λ d, bool_decide (d ≠ c)) s = true.

(** [s] neither begins nor ends with white space. *)
Definition trimmed (s : str) : Prop :=
  stops Py.isspace s
  ∧ ∀ c, last s = Some c → Py.isspace c = false.

(** The keys under which an HTTP method is stored in a path item. *)
Definition method_keys : list str :=
  ["get"; "post"; "put"; "delete"; "patch"; "head"; "options"].

(** The paths mapping and every method mapping in it have distinct keys,
    and no method mapping is empty. *)
Definition paths_well_formed
    (paths : list (str * list (str * value))) : Prop :=
  NoDup (Dict.keys paths)
  ∧ ∀ p ops, Dict.get p paths = Some ops →
             ops ≠ [] ∧ NoDup (Dict.keys ops).

(** * Properties *)

Example parse_users :
  @parse ascii_only ("GET /users/{id}" ++ 10%N :: "Fetches a single user."
                     ++ [10%N])
  = [mkEndpoint "GET" "/users/{id}" "Fetches a single user." ["id"]].
Proof. vm_compute. reflexivity. Qed.

Example parse_lowercase_trailing :
  @parse ascii_only "  post   /a/{x}/{y-z}/{x} trailing words"
  = [mkEndpoint "POST" "/a/{x}/{y-z}/{x}" "" ["x"; "x"]].
Proof. vm_compute. reflexivity. Qed.

Example parse_bare_root : @parse ascii_only "GET /" = [].
Proof. vm_compute. reflexivity. Qed.

(** U+0131 and U+017F are matched by [I] and [S] under [re.IGNORECASE];
    whatever [str.upper] makes of the token is stored. *)
Example parse_dotless_i `{Unicode} :
  path <$> parse ([111; 112; 116; 305; 111; 110; 383]%N ++ " /x") = ["/x"].
Proof. vm_compute. reflexivity. Qed.

Example parse_stops_at_heading :
  @parse ascii_only ("GET /a" ++ 10%N :: "first" ++ 10%N :: "# Heading"
                     ++ 10%N :: "never read")
  = [mkEndpoint "GET" "/a" "first" []].
Proof. vm_compute. reflexivity. Qed.

Example parse_orders :
  @parse ascii_only ("GET /orders" ++ 10%N :: 10%N :: "POST /orders"
                     ++ [10%N])
  = [mkEndpoint "GET" "/orders" "" []; mkEndpoint "POST" "/orders" "" []].
Proof. vm_compute. reflexivity. Qed.

Example build_paths_orders :
  Dict.keys <$> Dict.get "/orders"
    (@_build_paths ascii_only
       [mkEndpoint "GET" "/orders" "" [];
        mkEndpoint "POST" "/orders" "" [];
        mkEndpoint "GET" "/orders" "again" []])
  = Some ["get"; "post"].
Proof. vm_compute. reflexivity. Qed.

Example normalize_users :
  vget "tags" (@normalize ascii_only
                 [mkEndpoint "GET" "/users/{id}" "d" ["id"];
                  mkEndpoint "POST" "/orders" "" []] "Demo")
  = Some (VList [VDict [("name", VStr "orders")];
                 VDict [("name", VStr "users")]]).
Proof. vm_compute. reflexivity. Qed.

Example operation_id_users :
  @_generate_operation_id ascii_only
    (mkEndpoint "GET" "/users/{id}" "d" ["id"])
  = "get_users_by_id".
Proof. vm_compute. reflexivity. Qed.

(** Every property holds for any Unicode character database. *)
Section properties.
Context `{U : Unicode}.

(** ** The order of strings *)

Lemma leb_total s t : Py.leb s t = true ∨ Py.leb t s = true.
Proof.
  revert t. induction s as [|c s IH]; intros [|d t]; simpl; auto.
  destruct (N.ltb_spec c d), (N.ltb_spec d c), (N.eqb_spec c d),
    (N.eqb_spec d c); simpl; auto; lia.
Qed.

Lemma leb_refl s : Py.leb s s = true.
Proof.
  induction s as [|c s IH]; [done|]. simpl.
  by rewrite N.eqb_refl, IH, orb_true_r.
Qed.

Lemma leb_trans s t u :
  Py.leb s t = true → Py.leb t u = true → Py.leb s u = true.
Proof.
  revert t u. induction s as [|c s IH]; intros [|d t] [|e u]; simpl;
    try done.
  destruct (N.ltb_spec c d), (N.ltb_spec d e), (N.ltb_spec c e),
    (N.eqb_spec c d), (N.eqb_spec d e), (N.eqb_spec c e);
    simpl; try done; try lia.
  apply IH.
Qed.

Lemma leb_antisym s t :
  Py.leb s t = true → Py.leb t s = true → s = t.
Proof.
  revert t. induction s as [|c s IH]; intros [|d t]; simpl; try done.
  destruct (N.ltb_spec c d), (N.ltb_spec d c), (N.eqb_spec c d),
    (N.eqb_spec d c); simpl; try done; try lia.
  intros ??. subst. f_equal. by apply IH.
Qed.

#[global] Instance le_po : PartialOrder Py.le.
Proof.
  split; [split|].
  - intros s. apply leb_refl.
  - intros s t u. apply leb_trans.
  - intros s t. apply leb_antisym.
Qed.

#[global] Instance le_total : Total Py.le.
Proof. intros s t. apply leb_total. Qed.

(** ** Dictionaries *)

Section dict_facts.
Context {V : Type}.
Implicit Types (d : list (str * V)) (k : str) (v : V).

Lemma dict_get_set_eq k v d : Dict.get k (Dict.set k v d) = Some v.
Proof.
  induction d as [|[k' v'] d IH]; simpl.
  - by rewrite decide_True.
  - destruct (decide (k' = k)); simpl.
    + by rewrite decide_True.
    + by rewrite decide_False.
Qed.

Lemma dict_get_set_ne k k' v d :
  k ≠ k' → Dict.get k' (Dict.set k v d) = Dict.get k' d.
Proof.
  intros Hne. induction d as [|[k0 v0] d IH]; simpl.
  - by rewrite decide_False.
  - destruct (decide (k0 = k)) as [->|]; simpl.
    + by rewrite !decide_False.
    + by rewrite IH.
Qed.

Lemma dict_get_set k k' v d :
  Dict.get k' (Dict.set k v d)
  = if decide (k = k') then Some v else Dict.get k' d.
Proof.
  case_decide as Hk; [subst; apply dict_get_set_eq|].
  by apply dict_get_set_ne.
Qed.

Lemma dict_get_Some_keys k d : is_Some (Dict.get k d) ↔ k ∈ Dict.keys d.
Proof.
  unfold Dict.keys. induction d as [|[k' v'] d IH].
  - split; [by intros [? ?] | by intros ?%elem_of_nil].
  - rewrite fmap_cons, elem_of_cons. cbn [Dict.get fst].
    destruct (decide (k' = k)) as [->|Hne].
    + split; [by left | by eexists].
    + rewrite IH. split; [by right | by intros [?|?]].
Qed.

Lemma dict_keys_set k v d :
  Dict.keys (Dict.set k v d)
  = if decide (k ∈ Dict.keys d) then Dict.keys d
    else (Dict.keys d ++ [k])%list.
Proof.
  unfold Dict.keys. induction d as [|[k' v'] d IH].
  - destruct (decide (k ∈ [].*1)) as [Hin|]; [|done].
    by apply elem_of_nil in Hin.
  - cbn [Dict.set]. destruct (decide (k' = k)) as [->|Hne].
    + rewrite decide_True; [done | by apply elem_of_cons; left].
    + rewrite !fmap_cons, IH.
      destruct (decide (k ∈ d.*1)) as [Hin|Hnin].
      * rewrite decide_True; [done | by apply elem_of_cons; right].
      * rewrite decide_False; [done|].
        rewrite elem_of_cons. intros [?|?]; [by subst | done].
Qed.

Lemma dict_mem_keys k d : Dict.mem k d = bool_decide (k ∈ Dict.keys d).
Proof. unfold Dict.mem. apply bool_decide_ext, dict_get_Some_keys. Qed.
End dict_facts.

(** ** The operation object *)

(** C6: the operation assembled for an endpoint.  Its summary is the
    description when that is not empty and otherwise the stored (upper-case)
    method, one space and the path; it has a [description] entry exactly
    when the description is not empty, a [parameters] entry exactly when
    there is a path parameter, listing one fixed-shape object per name in
    order, and its [responses] is the one fixed "200" entry. *)
Theorem create_operation_shape (e : Endpoint) :
  ∃ op, _create_operation e = VDict op
    ∧ Dict.get "summary" op
      = Some (VStr (if decide (description e = "")
                    then method e ++ " " ++ path e
                    else description e))
    ∧ Dict.get "description" op
      = (if decide (description e = "") then None
         else Some (VStr (description e)))
    ∧ Dict.get "parameters" op
      = (if decide (parameters e = []) then None
         else Some (VList
                ((λ name,
                    VDict [("name", VStr name);
                           ("in", VStr "path");
                           ("required", VBool true);
                           ("schema", VDict [("type", VStr "string")]);
                           ("description",
                            VStr ("Identificador del " ++ name))])
                 <$> parameters e)))
    ∧ Dict.get "responses" op
      = Some (VDict
          [("200",
            VDict [("description", VStr "Respuesta exitosa");
                   ("content",
                    VDict [("application/json",
                            VDict [("schema",
                                    VDict [("type", VStr "object")])])])])]).
Proof.
  destruct e as [m p d ps]. eexists. split; [reflexivity|].
  simpl. destruct d as [|c d], ps as [|q ps]; simpl; repeat split; reflexivity.
Qed.

(** ** operationId and tag *)

Lemma extract_path_segments_literal path :
  _extract_path_segments path = literal_segments path.
Proof.
  unfold _extract_path_segments, literal_segments.
  apply list_filter_iff. intros seg.
  destruct seg as [|c seg]; [by split; [|intros [? _]]|].
  cbn [Py.truthy andb Py.startswith head].
  destruct (decide ("{"%cp = c)) as [<-|Hc].
  - rewrite bool_decide_eq_true_2 by done.
    split; [done | by intros [_ ?]].
  - rewrite bool_decide_eq_false_2 by done.
    split; [intros _; split; [done | congruence] | done].
Qed.

Lemma split_head_before_first c s :
  Py.split c s !! 0 = Some (before_first c s).
Proof.
  induction s as [|d s IH]; simpl; [done|].
  case_decide; [done|].
  destruct (Py.split c s) as [|piece rest]; simpl in *; [done|].
  by simplify_eq.
Qed.

(** C3: the generated operationId, by cases on the literal segments of the
    path and on the stored parameters; the bare root path has none. *)
Theorem generate_operation_id_spec (e : Endpoint) :
  _generate_operation_id e
  = (let m := Py.lower (method e) in
     match literal_segments (path e) with
     | [] => m ++ "_root"
     | resource :: more =>
         match parameters e with
         | first :: _ => m ++ "_" ++ resource ++ "_by_" ++ first
         | [] =>
             match last more with
             | Some final => m ++ "_" ++ resource ++ "_" ++ final
             | None => m ++ "_" ++ resource
             end
         end
     end)
  ∧ ∀ m d ps,
      _generate_operation_id (mkEndpoint m "/" d ps) = Py.lower m ++ "_root".
Proof.
  split; [|intros m d ps; reflexivity].
  unfold _generate_operation_id. rewrite extract_path_segments_literal.
  destruct (literal_segments (path e)) as [|resource more]; [done|].
  destruct (parameters e) as [|first ps]; [|by simpl].
  destruct more as [|seg more]; [by simpl|].
  rewrite last_cons_cons. simpl.
  destruct (last (seg :: more)) eqn:Hlast; [done|].
  by apply last_None in Hlast.
Qed.

(** C4: the tag of a path, and the [tags] section of the document: the
    distinct tags of the endpoints in ascending order, one [name] object
    each. *)
Theorem tag_derivation_spec :
  (∀ path,
     _extract_tag_from_path path
     = match Py.split "/"%cp path with
       | _ :: segment :: _ =>
           if decide (before_first "{"%cp segment = "") then "default"
           else before_first "{"%cp segment
       | _ => "default"
       end)
  ∧ ∀ endpoints title,
      ∃ names,
        vget "tags" (normalize endpoints title)
        = Some (VList ((λ name, VDict [("name", VStr name)]) <$> names))
        ∧ Sorted Py.le names
        ∧ NoDup names
        ∧ ∀ tag, tag ∈ names
            ↔ ∃ e, e ∈ endpoints ∧ tag = _extract_tag_from_path (path e).
Proof.
  split.
  - intros path. unfold _extract_tag_from_path.
    destruct (Py.split "/"%cp path) as [|s0 [|segment segs]]; [done..|].
    simpl. rewrite split_head_before_first. simpl.
    by destruct (before_first "{"%cp segment).
  - intros endpoints title. exists (sorted (_extract_tags endpoints)).
    split; [done|]. unfold sorted. split; [|split].
    + apply (Sorted_merge_sort _).
    + rewrite merge_sort_Permutation. apply NoDup_elements.
    + intros tag. rewrite merge_sort_Permutation, elem_of_elements.
      unfold _extract_tags. rewrite elem_of_list_to_set, list_elem_of_fmap.
      split; intros (e & ? & ?); eauto.
Qed.

(** ** Path grouping *)

Lemma build_paths_step_keys paths e :
  Dict.keys (build_paths_step paths e)
  = if decide (path e ∈ Dict.keys paths) then Dict.keys paths
    else (Dict.keys paths ++ [path e])%list.
Proof.
  unfold build_paths_step. rewrite dict_mem_keys.
  destruct (decide (path e ∈ Dict.keys paths)) as [Hin|Hnin].
  - rewrite bool_decide_eq_true_2 by done. simpl.
    by rewrite dict_keys_set, decide_True.
  - rewrite bool_decide_eq_false_2 by done. simpl.
    rewrite dict_keys_set, decide_True.
    + by rewrite dict_keys_set, decide_False.
    + rewrite dict_keys_set, decide_False by done.
      apply elem_of_app. right. by apply list_elem_of_singleton.
Qed.

Lemma build_paths_step_lookup paths e p m :
  Dict.get p (build_paths_step paths e) ≫= Dict.get m
  = if decide (path e = p ∧ Py.lower (method e) = m)
    then Some (_create_operation e)
    else Dict.get p paths ≫= Dict.get m.
Proof.
  unfold build_paths_step. rewrite dict_get_set.
  destruct (decide (path e = p)) as [<-|Hp].
  - simpl. rewrite dict_get_set.
    destruct (decide (Py.lower (method e) = m)) as [<-|Hm].
    + by rewrite decide_True.
    + rewrite decide_False by (by intros [_ ?]).
      unfold Dict.mem.
      destruct (Dict.get (path e) paths) as [inner|] eqn:Hget.
      * rewrite bool_decide_eq_true_2 by (by eexists). simpl.
        by rewrite Hget.
      * rewrite bool_decide_eq_false_2 by (by intros [? ?]). simpl.
        by rewrite dict_get_set_eq.
  - rewrite decide_False by (by intros [? _]).
    destruct (negb (Dict.mem (path e) paths)); [|done].
    by rewrite dict_get_set_ne.
Qed.

Lemma last_declared_cons p m e endpoints :
  last_declared p m (e :: endpoints)
  = match last_declared p m endpoints with
    | Some e' => Some e'
    | None =>
        if decide (path e = p ∧ Py.lower (method e) = m) then Some e
        else None
    end.
Proof.
  unfold last_declared. rewrite filter_cons.
  destruct (decide (path e = p ∧ Py.lower (method e) = m)); [|by case_match].
  rewrite last_cons. by case_match.
Qed.

Lemma build_paths_keys_from paths endpoints :
  Dict.keys (foldl build_paths_step paths endpoints)
  = (Dict.keys paths
     ++ filter (λ k, k ∉ Dict.keys paths)
          (first_occurrences (path <$> endpoints)))%list.
Proof.
  revert paths. induction endpoints as [|e endpoints IH]; intros paths.
  - simpl. by rewrite app_nil_r.
  - cbn [foldl fmap list_fmap first_occurrences]. rewrite IH.
    rewrite build_paths_step_keys, filter_cons, list_filter_filter.
    destruct (decide (path e ∈ Dict.keys paths)) as [Hin|Hnin].
    + rewrite decide_False by (by intros ?).
      f_equal. apply list_filter_iff. intros k. split; [|by intros [? _]].
      intros Hk. split; [done|]. by intros ->.
    + rewrite decide_True by done.
      rewrite <-(assoc_L (++)). simpl. do 2 f_equal.
      apply list_filter_iff. intros k.
      rewrite not_elem_of_app, list_elem_of_singleton. tauto.
Qed.

Lemma build_paths_lookup_from paths endpoints p m :
  Dict.get p (foldl build_paths_step paths endpoints) ≫= Dict.get m
  = match last_declared p m endpoints with
    | Some e => Some (_create_operation e)
    | None => Dict.get p paths ≫= Dict.get m
    end.
Proof.
  revert paths. induction endpoints as [|e endpoints IH]; intros paths.
  - done.
  - cbn [foldl]. rewrite IH, last_declared_cons.
    destruct (last_declared p m endpoints); [done|].
    rewrite build_paths_step_lookup. by case_decide.
Qed.

Lemma filter_True_id {A} (l : list A) (P : A → Prop)
    `{!∀ x, Decision (P x)} :
  (∀ x, P x) → filter P l = l.
Proof.
  intros HP. induction l as [|x l IH]; [done|].
  by rewrite filter_cons_True, IH.
Qed.

(** C5: the keys of the paths mapping are the distinct paths in order of
    first occurrence, and the slot of a path and lower-cased method holds
    the operation of the last endpoint declared for that pair. *)
Theorem build_paths_spec (endpoints : list Endpoint) :
  (∀ e, _build_paths (endpoints ++ [e])
        = build_paths_step (_build_paths endpoints) e)
  ∧ Dict.keys (_build_paths endpoints)
    = first_occurrences (path <$> endpoints)
  ∧ ∀ p m,
      Dict.get p (_build_paths endpoints) ≫= Dict.get m
      = _create_operation <$> last_declared p m endpoints.
Proof.
  unfold _build_paths. split; [intros e; apply foldl_snoc|]. split.
  - rewrite build_paths_keys_from. simpl.
    apply filter_True_id. intros k. apply not_elem_of_nil.
  - intros p m. rewrite build_paths_lookup_from.
    by destruct (last_declared p m endpoints).
Qed.

(** ** The document *)

Lemma dict_get_fmap {A B} (f : A → B) k (d : list (str * A)) :
  Dict.get k (prod_map id f <$> d) = f <$> Dict.get k d.
Proof.
  induction d as [|[k' v] d IH]; [done|].
  rewrite fmap_cons. cbn [Dict.get prod_map fst snd id].
  by case_decide.
Qed.

Lemma normalize_paths endpoints title p m :
  (vget "paths" (normalize endpoints title) ≫= vget p) ≫= vget m
  = Dict.get p (_build_paths endpoints) ≫= Dict.get m.
Proof.
  change (vget "paths" (normalize endpoints title))
    with (Some (VDict (prod_map id VDict <$> _build_paths endpoints))).
  cbn [mbind option_bind vget]. rewrite dict_get_fmap.
  by destruct (Dict.get p (_build_paths endpoints)).
Qed.

Lemma create_operation_tags e :
  vget "tags" (_create_operation e)
  = Some (VList [VStr (_extract_tag_from_path (path e))]).
Proof.
  unfold _create_operation.
  by destruct (description e), (parameters e).
Qed.

Lemma last_declared_elem_of p m endpoints e :
  last_declared p m endpoints = Some e → e ∈ endpoints.
Proof.
  intros He%last_Some_elem_of. by apply list_elem_of_filter in He as [_ ?].
Qed.

(** C9: every operation stored in the paths mapping of a document carries
    exactly one tag, and the top-level [tags] list has an entry of that
    name. *)
Theorem operation_tag_listed (endpoints : list Endpoint) (title : str)
    (p m : str) (op : value) :
  (vget "paths" (normalize endpoints title) ≫= vget p) ≫= vget m = Some op →
  ∃ tag tags,
    vget "tags" op = Some (VList [VStr tag])
    ∧ vget "tags" (normalize endpoints title) = Some (VList tags)
    ∧ VDict [("name", VStr tag)] ∈ tags.
Proof.
  rewrite normalize_paths.
  unfold _build_paths. rewrite build_paths_lookup_from.
  destruct (last_declared p m endpoints) as [e|] eqn:He; [|done].
  intros [= <-]. apply last_declared_elem_of in He.
  exists (_extract_tag_from_path (path e)). eexists.
  split; [apply create_operation_tags|]. split; [reflexivity|].
  unfold _build_tags_section, sorted.
  apply list_elem_of_fmap. eexists. split; [reflexivity|].
  rewrite merge_sort_Permutation, elem_of_elements.
  unfold _extract_tags. rewrite elem_of_list_to_set.
  apply list_elem_of_fmap. by exists e.
Qed.


(** ** Strings *)

Section string_facts.
Implicit Types (s t u : str) (c : N) (p : N → bool).

Lemma app_cons c s t : (c :: s) ++ t = c :: (s ++ t).
Proof. done. Qed.

Lemma app_assoc3 s t u : (s ++ t) ++ u = s ++ (t ++ u).
Proof. by rewrite <-(assoc_L (++)). Qed.

Lemma sforall_app p s t :
  Py.sforall p (s ++ t) = Py.sforall p s && Py.sforall p t.
Proof.
  induction s as [|c s IH]; [done|].
  simpl. by rewrite IH, andb_assoc.
Qed.

Lemma split_nonempty c s : Py.split c s ≠ [].
Proof.
  induction s as [|d s IH]; simpl; [done|].
  case_decide; [done|]. by destruct (Py.split c s).
Qed.
End string_facts.

(** ** Runs of characters *)

Section runs.
Implicit Types (s t a b : str) (c : N) (p : N → bool).

Lemma app_eq_empty a b : a ++ b = [] → a = [] ∧ b = [].
Proof. by destruct a. Qed.

Lemma star_elem p s s' :
  s' ∈ Re.star p s ↔ ∃ a, s = a ++ s' ∧ Py.sforall p a = true.
Proof.
  induction s as [|c s IH]; simpl.
  - rewrite list_elem_of_singleton. split.
    + intros ->. by exists [].
    + by intros (a & [_ ->]%symmetry%app_eq_empty & _).
  - destruct (p c) eqn:Hc.
    + rewrite elem_of_app, list_elem_of_singleton, IH. split.
      * intros [(a & -> & Ha)| ->].
        -- exists (c :: a). split; [done|]. simpl. by rewrite Hc.
        -- by exists [].
      * intros ([|d a] & Heq & Ha).
        -- right. done.
        -- left. injection Heq as -> ->.
           simpl in Ha. rewrite Hc in Ha. by exists a.
    + rewrite list_elem_of_singleton. split.
      * intros ->. by exists [].
      * intros ([|d a] & Heq & Ha); [done|].
        injection Heq as -> ->. simpl in Ha. by rewrite Hc in Ha.
Qed.

Lemma star_nonempty p s : Re.star p s ≠ [].
Proof.
  destruct s as [|c s]; simpl; [done|].
  destruct (p c); [|done]. by intros [_ ?]%app_eq_nil.
Qed.

Lemma star_head_stops p s s' : head (Re.star p s) = Some s' → stops p s'.
Proof.
  induction s as [|c s IH]; simpl.
  - by intros [= <-].
  - destruct (p c) eqn:Hc.
    + rewrite head_app. destruct (head (Re.star p s)) eqn:Hhd; [|].
      * intros [= <-]. by apply IH.
      * by apply head_None, star_nonempty in Hhd.
    + by intros [= <-].
Qed.

Lemma plus_elem p s s' :
  s' ∈ Re.plus p s
  ↔ ∃ a, a ≠ [] ∧ s = a ++ s' ∧ Py.sforall p a = true.
Proof.
  destruct s as [|c s]; simpl.
  - rewrite elem_of_nil. split; [done|].
    by intros (a & Ha & [? _]%symmetry%app_eq_empty & _).
  - destruct (p c) eqn:Hc.
    + rewrite star_elem. split.
      * intros (a & -> & Ha). exists (c :: a).
        split; [done|]. split; [done|]. simpl. by rewrite Hc.
      * intros ([|d a] & Hne & Heq & Ha); [done|].
        injection Heq as -> ->.
        simpl in Ha. rewrite Hc in Ha. by exists a.
    + rewrite elem_of_nil. split; [done|].
      intros ([|d a] & Hne & Heq & Ha); [done|].
      injection Heq as -> ->. simpl in Ha. by rewrite Hc in Ha.
Qed.

Lemma plus_head_stops p s s' : head (Re.plus p s) = Some s' → stops p s'.
Proof.
  destruct s as [|c s]; simpl; [done|].
  destruct (p c); [apply star_head_stops | done].
Qed.

(** A maximal run is determined by the text it is cut from. *)
Lemma span_unique p a a' b b' :
  Py.sforall p a = true → Py.sforall p a' = true →
  stops p b → stops p b' →
  a ++ b = a' ++ b' → a = a' ∧ b = b'.
Proof.
  revert a'. induction a as [|c a IH]; intros [|c' a'] Ha Ha' Hb Hb' Heq.
  - done.
  - simpl in Heq. subst b. simpl in *. rewrite Hb in Ha'. done.
  - simpl in Heq. subst b'. simpl in *. rewrite Hb' in Ha. done.
  - injection Heq as -> Heq. simpl in *.
    apply andb_true_iff in Ha as [_ Ha], Ha' as [_ Ha'].
    by destruct (IH a' Ha Ha' Hb Hb' Heq) as [-> ->].
Qed.

Lemma head_bind_Some {A B} (f : A → list B) (l : list A) y :
  head (l ≫= f) = Some y → ∃ x, x ∈ l ∧ head (f x) = Some y.
Proof.
  induction l as [|x l IH]; [done|].
  rewrite bind_cons, head_app.
  destruct (head (f x)) as [y'|] eqn:Hhd.
  - intros [= ->]. exists x. split; [by apply elem_of_cons; left | done].
  - intros (x' & ? & ?)%IH. exists x'.
    split; [by apply elem_of_cons; right | done].
Qed.

Lemma head_fmap {A B} (f : A → B) (l : list A) :
  head (f <$> l) = f <$> head l.
Proof. by destruct l. Qed.

Lemma elem_of_head_is_Some {A} (l : list A) x : x ∈ l → is_Some (head l).
Proof. destruct l; [by intros ?%elem_of_nil | by eexists]. Qed.

Lemma consumed_app a b : Re.consumed (a ++ b) b = a.
Proof.
  unfold Re.consumed. rewrite length_app.
  replace (length a + length b - length b) with (length a) by lia.
  by rewrite take_app_length.
Qed.
End runs.

(** ** Letters of the method tokens *)

Ltac bool_to_prop :=
  repeat (progress
    (unfold Re.ci_match, Py.isspace, Py.isascii, Py.ascii_upper,
       Py.ascii_lower, Py.lower_char, Py.upper_char in *;
     repeat match goal with
            | H : context [if ?b then _ else _] |- _ => destruct b eqn:?
            | |- context [if ?b then _ else _] => destruct b eqn:?
            | H : _ = false |- _ => apply not_true_iff_false in H
            | |- _ = false => apply not_true_iff_false; intros ?
            end;
     repeat rewrite ?orb_true_iff, ?andb_true_iff, ?N.eqb_eq, ?N.leb_le,
       ?N.ltb_lt in *)).

Lemma ci_match_letter c d :
  Py.ascii_upper c = true → Re.ci_match c d = true →
  Py.isspace d = false.
Proof. intros Hc Hd. bool_to_prop; lia. Qed.

Lemma ci_match_ascii c d :
  Py.ascii_upper c = true → Py.isascii d = true →
  Re.ci_match c d = true → Py.upper_char d = c.
Proof. intros Hc Ha Hd. bool_to_prop; lia. Qed.

Lemma HTTP_METHODS_upper M :
  M ∈ HTTP_METHODS → Py.sforall Py.ascii_upper M = true.
Proof.
  unfold HTTP_METHODS. intros HM.
  repeat (apply elem_of_cons in HM as [->|HM]; [reflexivity|]).
  by apply elem_of_nil in HM.
Qed.

Lemma matched_letters_no_space M tok :
  Py.sforall Py.ascii_upper M = true →
  Forall2 (λ c d, Re.lit_eq true c d = true) M tok →
  no_space tok.
Proof.
  unfold no_space. intros HM Hall. induction Hall as [|c d M tok Hcd _ IH].
  - done.
  - simpl in *. apply andb_true_iff in HM as [Hc HM].
    by rewrite (ci_match_letter c d), IH.
Qed.

Lemma matched_letters_ascii M tok :
  Py.sforall Py.ascii_upper M = true →
  Forall2 (λ c d, Re.lit_eq true c d = true) M tok →
  Py.sforall Py.isascii tok = true →
  Py.upper_char <$> tok = M.
Proof.
  intros HM Hall. induction Hall as [|c d M tok Hcd _ IH].
  - done.
  - simpl in *. apply andb_true_iff in HM as [Hc HM].
    intros [Hd Htok]%andb_true_iff.
    f_equal; [by apply ci_match_ascii | by apply IH].
Qed.

Lemma method_token_no_space tok : method_token tok → no_space tok.
Proof.
  intros (M & HM & Hall).
  apply (matched_letters_no_space M); [by apply HTTP_METHODS_upper | done].
Qed.

(** On ASCII text the token in upper case is one of the seven names. *)
Lemma method_token_ascii tok :
  method_token tok → Py.sforall Py.isascii tok = true →
  Py.upper tok ∈ HTTP_METHODS.
Proof.
  intros (M & HM & Hall) Hascii. unfold Py.upper. rewrite Hascii.
  rewrite (matched_letters_ascii M); [done | | done..].
  by apply HTTP_METHODS_upper.
Qed.

(** ** What the patterns match *)

Section regex_facts.
Import Re.
Implicit Types (s t : str) (g : gmap nat str) (st : Re.state).

Lemma run_word w s g st :
  st ∈ run true (word w) (s, g)
  ↔ ∃ tok, s = tok ++ st.1 ∧ st.2 = g
           ∧ Forall2 (λ c d, lit_eq true c d = true) w tok.
Proof.
  revert s. induction w as [|c w IH]; intros s.
  - simpl. rewrite list_elem_of_singleton. split.
    + intros ->. exists []. by repeat split.
    + intros (tok & Hs & Hg & ->%Forall2_nil_inv_l).
      destruct st; simpl in *; by subst.
  - cbn [word run]. rewrite list_elem_of_bind. split.
    + intros (mid & Hst & Hmid). cbn [fst snd] in Hmid.
      destruct s as [|d s]; [by apply elem_of_nil in Hmid|].
      destruct (lit_eq true c d) eqn:Hlit; [|by apply elem_of_nil in Hmid].
      apply list_elem_of_singleton in Hmid as ->.
      apply IH in Hst as (tok & -> & Hg & Hall).
      exists (d :: tok). split; [done|]. split; [done|].
      by apply Forall2_cons.
    + intros (tok & -> & Hg & Hall).
      apply Forall2_cons_inv_l in Hall as (d & tok' & Hcd & Hall & ->).
      cbn [fst snd app].
      exists (tok' ++ st.1, g). split.
      * apply IH. by exists tok'.
      * rewrite Hcd. by apply list_elem_of_singleton.
Qed.

Lemma run_alts ws s g st :
  st ∈ run true (alts ws) (s, g)
  ↔ ∃ M tok, M ∈ ws ∧ s = tok ++ st.1 ∧ st.2 = g
      ∧ Forall2 (λ c d, lit_eq true c d = true) M tok.
Proof.
  induction ws as [|w ws IH].
  - simpl. split.
    + destruct s; by intros ?%elem_of_nil.
    + by intros (M & tok & ?%elem_of_nil & _).
  - cbn [alts]. destruct ws as [|w' ws].
    + rewrite run_word. split.
      * intros (tok & ? & ? & ?). exists w, tok.
        split; [by apply list_elem_of_singleton | done].
      * intros (M & tok & ->%list_elem_of_singleton & ?). by exists tok.
    + cbn [run]. rewrite elem_of_app, run_word, IH. split.
      * intros [(tok & ? & ? & ?)|(M & tok & ? & ?)].
        -- exists w, tok. split; [by apply elem_of_cons; left | done].
        -- exists M, tok. split; [by apply elem_of_cons; right | done].
      * intros (M & tok & [->|HM]%elem_of_cons & ?).
        -- left. by exists tok.
        -- right. by exists M, tok.
Qed.

Lemma run_methods s g st :
  st ∈ run true HTTP_METHODS_re (s, g)
  ↔ ∃ tok, s = tok ++ st.1 ∧ method_token tok ∧ st.2 = <[1:=tok]> g.
Proof.
  unfold HTTP_METHODS_re. cbn [run]. rewrite list_elem_of_fmap. split.
  - intros ([s' g'] & -> & (M & tok & HM & Hs & Hg & Heq)%run_alts).
    simpl in *. subst. exists tok. rewrite consumed_app.
    split; [done|]. split; [by exists M | done].
  - intros (tok & -> & (M & HM & Heq) & Hg). exists (st.1, g).
    cbn [fst snd]. rewrite consumed_app. split.
    + destruct st; simpl in *; by subst.
    + apply run_alts. by exists M, tok.
Qed.

Lemma run_seq ic r1 r2 st st' :
  st' ∈ run ic (Seq r1 r2) st
  ↔ ∃ mid, mid ∈ run ic r1 st ∧ st' ∈ run ic r2 mid.
Proof.
  cbn [run]. rewrite list_elem_of_bind.
  split; intros (mid & ? & ?); by exists mid.
Qed.

Lemma run_plus ic p st st' :
  st' ∈ run ic (Plus p) st
  ↔ ∃ a, a ≠ [] ∧ st.1 = a ++ st'.1 ∧ Py.sforall p a = true
         ∧ st'.2 = st.2.
Proof.
  cbn [run]. rewrite list_elem_of_fmap. split.
  - intros (s' & -> & (a & ? & ? & ?)%plus_elem). by exists a.
  - intros (a & ? & ? & ? & ?). exists st'.1. split.
    + destruct st'; simpl in *; by subst.
    + apply plus_elem. by exists a.
Qed.

Lemma run_group ic n r st st' :
  st' ∈ run ic (Group n r) st
  ↔ ∃ st0, st0 ∈ run ic r st
           ∧ st' = (st0.1, <[n := consumed st.1 st0.1]> st0.2).
Proof.
  cbn [run]. rewrite list_elem_of_fmap.
  split; intros (st0 & ? & ?); by exists st0.
Qed.

(** A pattern character that is no letter matches itself only, with or
    without [re.IGNORECASE]. *)
Lemma run_lit_plain ic c st st' :
  Py.ascii_upper c || Py.ascii_lower c = false →
  st' ∈ run ic (Lit c) st ↔ st.1 = c :: st'.1 ∧ st'.2 = st.2.
Proof.
  intros Hc. cbn [run]. destruct st as [[|d s] g]; cbn [fst snd].
  - split; [by intros ?%elem_of_nil | by intros [? _]].
  - assert (lit_eq ic c d = bool_decide (c = d)) as ->.
    { unfold lit_eq, ci_match. rewrite Hc. destruct ic; [|done].
      destruct (N.eqb_spec d c) as [->|Hne].
      - by rewrite bool_decide_eq_true_2.
      - by rewrite bool_decide_eq_false_2. }
    case_bool_decide as Hcd.
    + subst d. rewrite list_elem_of_singleton. split.
      * by intros ->.
      * intros [[= ->] <-]. by destruct st'.
    + split; [by intros ?%elem_of_nil | by intros [[= -> _] _]].
Qed.

(** The path group [(/[^\\s]+)]. *)
Lemma run_path_group st st' :
  st' ∈ run true
          (Group 2 (Seq (Lit "/"%cp) (Plus (λ c, negb (Py.isspace c))))) st
  ↔ ∃ p', p' ≠ [] ∧ st.1 = ("/"%cp :: p') ++ st'.1 ∧ no_space p'
          ∧ st'.2 = <[2 := "/"%cp :: p']> st.2.
Proof.
  rewrite run_group. setoid_rewrite run_seq. split.
  - intros (st0 & (mid & [Hs Hg]%run_lit_plain & Hplus) & ->); [|done].
    apply run_plus in Hplus as (a & Ha & Hmid & Hall & Hg0).
    exists a. cbn [fst snd]. rewrite Hmid in Hs.
    rewrite Hs, <-app_cons, consumed_app, Hg0, Hg. done.
  - intros (p' & Hne & Hs & Hall & Hg).
    exists (st'.1, st.2). split.
    + exists (p' ++ st'.1, st.2). split.
      * by apply run_lit_plain.
      * apply run_plus. by exists p'.
    + cbn [fst snd]. rewrite Hs, consumed_app.
      destruct st'; simpl in *; by subst.
Qed.

Lemma endpoint_run s st :
  st ∈ run true ENDPOINT_PATTERN (s, ∅)
  ↔ ∃ tok ws p',
      s = tok ++ ws ++ ("/"%cp :: p') ++ st.1
      ∧ method_token tok
      ∧ ws ≠ [] ∧ all_space ws
      ∧ p' ≠ [] ∧ no_space p'
      ∧ st.2 = <[2 := "/"%cp :: p']> (<[1 := tok]> ∅).
Proof.
  unfold ENDPOINT_PATTERN. rewrite run_seq.
  setoid_rewrite run_seq. split.
  - intros (m1 & (tok & Hs & Htok & Hg1)%run_methods
               & m2 & Hws%run_plus & Hpath%run_path_group).
    destruct Hws as (ws & Hne & Hm1 & Hall & Hg2).
    destruct Hpath as (p' & Hne' & Hm2 & Hall' & Hg).
    exists tok, ws, p'. cbn [fst snd] in *.
    rewrite Hs, Hm1, Hm2, Hg, Hg2, Hg1. done.
  - intros (tok & ws & p' & -> & Htok & Hne & Hall & Hne' & Hall' & Hg).
    exists (ws ++ ("/"%cp :: p') ++ st.1, <[1:=tok]> ∅). split.
    + apply run_methods. by exists tok.
    + exists (("/"%cp :: p') ++ st.1, <[1:=tok]> ∅). split.
      * apply run_plus. by exists ws.
      * apply run_path_group. by exists p'.
Qed.

Lemma head_run_seq ic r1 r2 st y :
  head (run ic (Seq r1 r2) st) = Some y →
  ∃ mid, mid ∈ run ic r1 st ∧ head (run ic r2 mid) = Some y.
Proof. cbn [run]. apply head_bind_Some. Qed.

Lemma head_run_plus ic p st y :
  head (run ic (Plus p) st) = Some y → stops p y.1.
Proof.
  cbn [run]. rewrite head_fmap.
  destruct (head (plus p st.1)) as [s'|] eqn:Hhd; [|done].
  intros [= <-]. by apply plus_head_stops in Hhd.
Qed.

Lemma endpoint_head_stops s st :
  ENDPOINT_match s = Some st → stops (λ c, negb (Py.isspace c)) st.1.
Proof.
  unfold ENDPOINT_match, rmatch, ENDPOINT_PATTERN.
  intros (m1 & _ & (m2 & _ & Hhd)%head_run_seq)%head_run_seq.
  cbn [run] in Hhd. rewrite head_fmap in Hhd.
  destruct (head (_ ≫= _)) as [st0|] eqn:Hhd0; [|done].
  injection Hhd as <-.
  apply head_bind_Some in Hhd0 as (m3 & _ & Hhd0).
  by apply (head_run_plus true) in Hhd0.
Qed.
End regex_facts.

(** ** Recognition of a declaration line *)

Section recognition.
Import Re.
Implicit Types (s t tok ws rest : str).

Local Abbreviation ns := (λ c : N, negb (Py.isspace c)).

Lemma stops_space_run ws t : ws ≠ [] → all_space ws → stops ns (ws ++ t).
Proof.
  destruct ws as [|c ws]; [done|]. intros _ Hall.
  unfold all_space in Hall. simpl in *.
  apply andb_true_iff in Hall as [-> _]. done.
Qed.

Lemma decomposition_unique tok ws p rest tok' ws' p' rest' :
  tok ++ ws ++ ("/"%cp :: p) ++ rest
  = tok' ++ ws' ++ ("/"%cp :: p') ++ rest' →
  method_token tok → method_token tok' →
  ws ≠ [] → all_space ws → ws' ≠ [] → all_space ws' →
  no_space p → no_space p' → stops ns rest → stops ns rest' →
  tok = tok' ∧ ws = ws' ∧ p = p' ∧ rest = rest'.
Proof.
  intros Heq Htok%method_token_no_space Htok'%method_token_no_space
    Hne Hws Hne' Hws' Hp Hp' Hrest Hrest'.
  apply (span_unique ns) in Heq as [-> Heq];
    [|done|done|by apply stops_space_run..].
  apply (span_unique Py.isspace) in Heq as [-> Heq]; [|done..].
  injection Heq as Heq.
  by apply (span_unique ns) in Heq as [-> ->].
Qed.

Lemma endpoint_match_spec s rest g :
  ENDPOINT_match s = Some (rest, g)
  ↔ ∃ tok ws p,
      s = tok ++ ws ++ ("/"%cp :: p) ++ rest
      ∧ method_token tok
      ∧ ws ≠ [] ∧ all_space ws
      ∧ p ≠ [] ∧ no_space p
      ∧ stops ns rest
      ∧ g = <[2 := "/"%cp :: p]> (<[1 := tok]> ∅).
Proof.
  split.
  - intros Hm. pose proof (endpoint_head_stops _ _ Hm) as Hstop.
    apply head_Some_elem_of, endpoint_run in Hm
      as (tok & ws & p & ? & ? & ? & ? & ? & ? & ?).
    by exists tok, ws, p.
  - intros (tok & ws & p & Hs & Htok & Hne & Hws & Hp & Hnsp & Hstop & ->).
    assert (is_Some (ENDPOINT_match s)) as [[rest' g'] Hm].
    { apply (elem_of_head_is_Some _
               (rest, <[2:="/"%cp :: p]> (<[1:=tok]> ∅))).
      apply endpoint_run. by exists tok, ws, p. }
    rewrite Hm. pose proof (endpoint_head_stops _ _ Hm) as Hstop'.
    apply head_Some_elem_of, endpoint_run in Hm
      as (tok' & ws' & p' & Hs' & ? & ? & ? & ? & ? & Hg').
    cbn [fst snd] in *. rewrite Hs in Hs'.
    apply decomposition_unique in Hs' as (-> & -> & -> & ->); [|done..].
    by rewrite Hg'.
Qed.

Lemma parse_line_Some line lines i e :
  _parse_line_for_endpoint line lines i = Some e
  ↔ ∃ tok ws p rest,
      Py.strip line = tok ++ ws ++ ("/"%cp :: p) ++ rest
      ∧ method_token tok
      ∧ ws ≠ [] ∧ all_space ws
      ∧ p ≠ [] ∧ no_space p
      ∧ stops ns rest
      ∧ e = mkEndpoint (Py.upper tok) ("/"%cp :: p)
              (_extract_description lines i)
              (_extract_path_parameters ("/"%cp :: p)).
Proof.
  unfold _parse_line_for_endpoint.
  destruct (ENDPOINT_match (Py.strip line)) as [[rest g]|] eqn:Hm.
  - apply endpoint_match_spec in Hm
      as (tok & ws & p & Hs & Htok & Hne & Hws & Hp & Hnsp & Hstop & ->).
    rewrite lookup_insert_ne, !lookup_insert_eq by done. cbn [default].
    split.
    + intros [= <-]. by exists tok, ws, p, rest.
    + intros (tok' & ws' & p' & rest' & Hs' & ? & ? & ? & ? & ? & ? & ->).
      rewrite Hs in Hs'.
      by apply decomposition_unique in Hs' as (-> & -> & -> & ->).
  - split; [done|].
    intros (tok & ws & p & rest & Hs & ? & ? & ? & ? & ? & ? & _).
    assert (ENDPOINT_match (Py.strip line)
            = Some (rest, <[2:="/"%cp :: p]> (<[1:=tok]> ∅))) as Hm'.
    { apply endpoint_match_spec. by exists tok, ws, p. }
    by rewrite Hm in Hm'.
Qed.
End recognition.

(** ** The description window *)

Section description.
Implicit Types (lines window parts : list str).

Lemma description_loop_window lines a n parts :
  (a + n ≤ length lines)%nat →
  description_loop lines (seq a n) parts
  = collect (take n (drop a lines)) parts.
Proof.
  revert a parts. induction n as [|n IH]; intros a parts Hlen; [done|].
  destruct (lookup_lt_is_Some_2 lines a) as [raw Hraw]; [lia|].
  rewrite (drop_S _ _ _ Hraw). cbn [seq take description_loop collect].
  rewrite Hraw. change (default "" (Some raw)) with raw.
  unfold _should_stop_description_extraction.
  destruct (bool_decide (is_Some (ENDPOINT_match (Py.strip raw))));
    [done|].
  destruct (Py.startswith "#" (Py.strip raw)); [done|].
  destruct (Py.strip raw) as [|c line] eqn:Hline.
  - rewrite decide_True by done. cbn [Py.truthy negb andb].
    destruct parts as [|part parts]; cbn [Py.nonempty].
    + rewrite decide_True by done. apply IH. lia.
    + by rewrite decide_False.
  - rewrite decide_False by done. cbn [Py.truthy negb andb].
    apply IH. lia.
Qed.

Lemma extract_description_window lines i :
  _extract_description lines i = following_description lines i.
Proof.
  unfold _extract_description, following_description,
    MAX_DESCRIPTION_LINES.
  do 2 f_equal. replace (i + 1) with (S i) by lia.
  destruct (decide (length lines ≤ S i)%nat) as [Hshort|Hlong].
  - replace ((S i + 3) `min` length lines - S i) with 0 by lia.
    by rewrite drop_ge.
  - rewrite description_loop_window by lia.
    destruct (decide (S i + 3 ≤ length lines)%nat) as [Hle|Hgt].
    + by replace ((S i + 3) `min` length lines - S i) with 3 by lia.
    + rewrite !take_ge; [done | rewrite length_drop; lia..].
Qed.

End description.

Lemma parse_loop_elem all_lines i rest e :
  e ∈ parse_loop all_lines i rest
  ↔ ∃ k line, rest !! k = Some line
              ∧ _parse_line_for_endpoint line all_lines (i + k) = Some e.
Proof.
  revert i. induction rest as [|line rest IH]; intros i.
  - split; [by intros ?%elem_of_nil | by intros (k & ? & ? & _)].
  - cbn [parse_loop]. split.
    + destruct (_parse_line_for_endpoint line all_lines i) as [e'|] eqn:He.
      * intros [->|Hin]%elem_of_cons.
        -- exists 0, line. by rewrite Nat.add_0_r.
        -- apply IH in Hin as (k & line' & ? & ?). exists (S k), line'.
           by rewrite Nat.add_succ_r.
      * intros (k & line' & ? & ?)%IH. exists (S k), line'.
        by rewrite Nat.add_succ_r.
    + intros ([|k] & line' & Hk & He).
      * injection Hk as ->. rewrite Nat.add_0_r in He. rewrite He.
        by apply elem_of_cons; left.
      * rewrite Nat.add_succ_r in He.
        assert (e ∈ parse_loop all_lines (S i) rest) as Hin.
        { apply IH. by exists k, line'. }
        destruct (_parse_line_for_endpoint line all_lines i);
          [by apply elem_of_cons; right | done].
Qed.

Lemma parse_elem content e :
  e ∈ parse content
  ↔ ∃ i line, Py.split 10 content !! i = Some line
              ∧ _parse_line_for_endpoint line (Py.split 10 content) i
                = Some e.
Proof. unfold parse. by rewrite parse_loop_elem. Qed.

(** ** The extractor *)




(** C2: the description of a record found at line [i] is read from the
    window of at most three following lines, as [following_description]
    says. *)
Theorem description_extraction (line : str) (lines : list str)
    (i : nat) (e : Endpoint) :
  _parse_line_for_endpoint line lines i = Some e →
  description e = following_description lines i.
Proof.
  intros (tok & ws & p & rest & _ & _ & _ & _ & _ & _ & _ & ->)
    %parse_line_Some.
  apply extract_description_window.
Qed.

(** C10: the path of an extracted record begins with a slash, has at least
    two characters and no white space; a line [GET /] yields no record. *)
Theorem extracted_path_shape (content : str) (e : Endpoint) :
  e ∈ parse content →
  (2 ≤ length (path e))%nat
  ∧ head (path e) = Some "/"%cp
  ∧ no_space (path e)
  ∧ ∀ lines i, _parse_line_for_endpoint "GET /" lines i = None.
Proof.
  intros (i & line & _ & He)%parse_elem.
  apply parse_line_Some in He
    as (tok & ws & p & rest & _ & _ & _ & _ & Hp & Hnsp & _ & ->).
  cbn [path]. repeat split; try done.
  destruct p; [done | simpl; lia].
Qed.

(** C7: a text without a recognised line yields no record, and the
    document made from no record has the fixed sections, no tag and no
    path. *)
Theorem no_declarations (content title : str) :
  (∀ i line,
     Py.split 10 content !! i = Some line →
     _parse_line_for_endpoint line (Py.split 10 content) i = None) →
  parse content = []
  ∧ normalize (parse content) title
    = VDict [("openapi", VStr "3.0.0");
             ("info", VDict [("title", VStr title);
                             ("version", VStr "1.0.0");
                             ("description", VStr DEFAULT_API_DESCRIPTION)]);
             ("servers",
              VList [VDict [("url", VStr "https://api.example.com");
                            ("description",
                             VStr DEFAULT_SERVER_DESCRIPTION)]]);
             ("tags", VList []);
             ("paths", VDict [])].
Proof.
  intros Hnone.
  assert (parse content = []) as ->.
  { destruct (parse content) as [|e es] eqn:Hparse; [done|].
    assert (e ∈ parse content) as (i & line & Hline & He)%parse_elem
      by (rewrite Hparse; apply elem_of_cons; by left).
    by rewrite (Hnone i line Hline) in He. }
  split; [done|].
  unfold normalize, _build_tags_section, sorted, _extract_tags.
  cbn [fmap list_fmap list_to_set foldr].
  by rewrite elements_empty.
Qed.

(** ** Path parameters *)

Section placeholders.
Import Re.
Implicit Types (s w rest : str).

Lemma param_run s st :
  st ∈ run false PARAM_PATTERN (s, ∅)
  ↔ ∃ w, s = "{"%cp :: w ++ "}"%cp :: st.1
         ∧ w ≠ [] ∧ Py.sforall Py.isword w = true
         ∧ st.2 = <[1 := w]> ∅.
Proof.
  unfold PARAM_PATTERN. rewrite run_seq. setoid_rewrite run_seq. split.
  - intros (m1 & [Hs Hg1]%run_lit_plain
               & m2 & (st0 & Hplus%run_plus & ->)%run_group
               & [Hm2 Hg]%run_lit_plain); [|done..].
    destruct Hplus as (w & Hne & Hm1 & Hall & Hg0).
    cbn [fst snd] in *. exists w.
    rewrite Hs, Hg, Hm1, consumed_app, Hg0, Hg1, Hm2. done.
  - intros (w & -> & Hne & Hall & Hg).
    exists (w ++ "}"%cp :: st.1, ∅). split; [by apply run_lit_plain|].
    exists ("}"%cp :: st.1, <[1:=w]> ∅). split.
    + apply run_group. exists ("}"%cp :: st.1, ∅). split.
      * apply run_plus. by exists w.
      * cbn [fst snd]. by rewrite consumed_app.
    + by apply run_lit_plain.
Qed.

Lemma placeholder_unique w rest w' rest' :
  Py.sforall Py.isword w = true → Py.sforall Py.isword w' = true →
  w ++ "}"%cp :: rest = w' ++ "}"%cp :: rest' →
  w = w' ∧ rest = rest'.
Proof.
  intros Hw Hw' Heq.
  apply (span_unique Py.isword) in Heq as [-> [= ->]]; done.
Qed.

Lemma param_match_spec s rest g :
  rmatch false PARAM_PATTERN s = Some (rest, g)
  ↔ ∃ w, s = "{"%cp :: w ++ "}"%cp :: rest
         ∧ w ≠ [] ∧ Py.sforall Py.isword w = true
         ∧ g = <[1 := w]> ∅.
Proof.
  unfold rmatch. split.
  - by intros Hm%head_Some_elem_of%param_run.
  - intros (w & Hs & Hne & Hall & ->).
    assert (is_Some (head (run false PARAM_PATTERN (s, ∅))))
      as [[rest' g'] Hm].
    { apply (elem_of_head_is_Some _ (rest, <[1:=w]> ∅)).
      apply param_run. by exists w. }
    rewrite Hm. apply head_Some_elem_of, param_run in Hm
      as (w' & Hs' & _ & Hall' & Hg').
    cbn [fst snd] in *. rewrite Hs in Hs'. injection Hs' as Hs'.
    apply placeholder_unique in Hs' as [-> ->]; [|done..].
    by rewrite Hg'.
Qed.

Lemma findall_skip ic r a s :
  findall_from ic r (length a) (a ++ s) = findall_from ic r 0 s.
Proof.
  induction a as [|c a IH]; [by destruct s|].
  simpl. apply IH.
Qed.

Lemma findall_placeholders n s :
  (length s ≤ n)%nat →
  Placeholders s (findall false PARAM_PATTERN s).
Proof.
  unfold findall. revert s.
  induction n as [|n IH]; intros [|c s] Hlen;
    [constructor | simpl in Hlen; lia | constructor |].
  cbn [findall_from].
  destruct (rmatch false PARAM_PATTERN (c :: s)) as [[rest g]|] eqn:Hm.
  - apply param_match_spec in Hm as (w & [= -> ->] & Hne & Hall & ->).
    rewrite lookup_insert_eq. change (default [] (Some w)) with w.
    assert (findall_from false PARAM_PATTERN
              (length ("{"%cp :: w ++ "}"%cp :: rest) - length rest - 1)
              (w ++ "}"%cp :: rest)
            = findall_from false PARAM_PATTERN 0 rest) as ->.
    { replace (length ("{"%cp :: w ++ "}"%cp :: rest) - length rest - 1)
        with (length (w ++ ["}"%cp])).
      2:{ cbn [length]. rewrite !length_app. simpl. lia. }
      replace (w ++ "}"%cp :: rest) with ((w ++ ["}"%cp]) ++ rest)
        by (by rewrite <-(assoc_L (++))).
      apply findall_skip. }
    apply ph_hit; [done..|].
    apply IH. simpl in Hlen. rewrite length_app in Hlen. simpl in Hlen.
    lia.
  - apply ph_skip; [|apply IH; simpl in Hlen; lia].
    intros w rest Hne Hall Heq.
    assert (rmatch false PARAM_PATTERN (c :: s)
            = Some (rest, <[1:=w]> ∅)) as Hm'.
    { apply param_match_spec. by exists w. }
    by rewrite Hm in Hm'.
Qed.

Lemma Placeholders_functional s names names' :
  Placeholders s names → Placeholders s names' → names = names'.
Proof.
  intros H. revert names'.
  induction H as [|w rest names Hne Hall _ IH|c s names Hno _ IH];
    intros names' H'.
  - by inversion H'.
  - inversion H' as [|w' rest' names0 Hne' Hall' Hrest' Heq|
                     c' s' names0 Hno' _]; subst.
    + apply placeholder_unique in Heq as [-> ->]; [|done..].
      f_equal. by apply IH.
    + by destruct (Hno' w rest Hne Hall).
  - inversion H' as [|w' rest' names0 Hne' Hall' Hrest' Heq|
                     c' s' names0 Hno' Hs']; subst.
    + by destruct (Hno w' rest' Hne' Hall').
    + by apply IH.
Qed.
End placeholders.

(** C8: the parameters of an extracted record are the placeholder names
    of its path, in order, repeated as they occur; they are what
    [_extract_path_parameters] computes from the path alone. *)
Theorem parameters_from_path (content : str) (e : Endpoint) :
  e ∈ parse content →
  parameters e = _extract_path_parameters (path e)
  ∧ ∀ names, Placeholders (path e) names ↔ names = parameters e.
Proof.
  intros (i & line & _ & He)%parse_elem.
  apply parse_line_Some in He
    as (tok & ws & p & rest & _ & _ & _ & _ & _ & _ & _ & ->).
  cbn [path parameters]. split; [done|]. intros names.
  pose proof (findall_placeholders _ ("/"%cp :: p) (le_n _)) as Hph.
  split.
  - intros H. by apply (Placeholders_functional _ _ _ H).
  - by intros ->.
Qed.
(** ** Trimming *)

Section trimming.
Implicit Types (s a b : str) (c : N) (p : N → bool).

Lemma sforall_lstrip p s :
  Py.sforall p s = true → Py.sforall p (Py.lstrip s) = true.
Proof.
  induction s as [|c s IH]; [done|]. simpl.
  destruct (Py.isspace c); [|done].
  intros [_ ?]%andb_true_iff. by apply IH.
Qed.

Lemma sforall_rstrip p s :
  Py.sforall p s = true → Py.sforall p (Py.rstrip s) = true.
Proof.
  induction s as [|c s IH]; [done|]. simpl.
  intros [Hc Hs]%andb_true_iff. specialize (IH Hs).
  destruct (Py.rstrip s) as [|d r].
  - destruct (Py.isspace c); [done|]. simpl. by rewrite Hc.
  - simpl in *. by rewrite Hc.
Qed.

Lemma sforall_strip p s :
  Py.sforall p s = true → Py.sforall p (Py.strip s) = true.
Proof. intros. by apply sforall_lstrip, sforall_rstrip. Qed.

Lemma lstrip_stops s : stops Py.isspace (Py.lstrip s).
Proof.
  induction s as [|c s IH]; [done|]. simpl.
  by destruct (Py.isspace c) eqn:Hc.
Qed.

Lemma last_rstrip s c :
  last (Py.rstrip s) = Some c → Py.isspace c = false.
Proof.
  revert c. induction s as [|d s IH]; intros c; [done|]. simpl.
  destruct (Py.rstrip s) as [|e r].
  - destruct (Py.isspace d) eqn:Hd; [done|]. by intros [= <-].
  - rewrite last_cons_cons. apply IH.
Qed.

Lemma last_lstrip s c :
  last (Py.lstrip s) = Some c → last s = Some c.
Proof.
  induction s as [|d s IH]; [done|]. simpl.
  destruct (Py.isspace d); [|done].
  intros Hl. by rewrite last_cons, (IH Hl).
Qed.

Lemma strip_trimmed s : trimmed (Py.strip s).
Proof.
  split; [apply lstrip_stops|].
  intros c Hc. by apply last_lstrip, last_rstrip in Hc.
Qed.

Lemma lstrip_app_space a s :
  all_space a → Py.lstrip (a ++ s) = Py.lstrip s.
Proof.
  unfold all_space. induction a as [|c a IH]; [done|].
  rewrite app_cons. simpl. intros [-> ?]%andb_true_iff. by apply IH.
Qed.

Lemma rstrip_all_space b : all_space b → Py.rstrip b = "".
Proof.
  unfold all_space. induction b as [|c b IH]; [done|]. simpl.
  intros [-> ?]%andb_true_iff. by rewrite IH.
Qed.

Lemma rstrip_app_space s b :
  all_space b → Py.rstrip (s ++ b) = Py.rstrip s.
Proof.
  intros Hb. induction s as [|c s IH].
  - by rewrite app_nil_l, rstrip_all_space.
  - rewrite app_cons. simpl. by rewrite IH.
Qed.

Lemma rstrip_space_app a s :
  all_space a →
  Py.rstrip (a ++ s)
  = match Py.rstrip s with "" => "" | r => a ++ r end.
Proof.
  unfold all_space. induction a as [|c a IH].
  - intros _. rewrite app_nil_l. by destruct (Py.rstrip s).
  - rewrite app_cons. simpl. intros [Hc Ha]%andb_true_iff.
    rewrite (IH Ha). destruct (Py.rstrip s) as [|d r].
    + by rewrite Hc.
    + by destruct a.
Qed.

Lemma strip_padding a s b :
  all_space a → all_space b → Py.strip (a ++ s ++ b) = Py.strip s.
Proof.
  intros Ha Hb. unfold Py.strip.
  rewrite rstrip_space_app, rstrip_app_space by done.
  destruct (Py.rstrip s) as [|d r]; [done|].
  by rewrite lstrip_app_space.
Qed.

Lemma split_sforall p c s piece :
  Py.sforall p s = true → piece ∈ Py.split c s →
  Py.sforall p piece = true.
Proof.
  revert piece. induction s as [|d s IH]; intros piece; simpl.
  - by intros _ ->%list_elem_of_singleton.
  - intros [Hd Hs]%andb_true_iff. destruct (decide (d = c)) as [->|Hne].
    + intros [->|?]%elem_of_cons; [done | by apply IH].
    + destruct (Py.split c s) as [|h t] eqn:Hsplit;
        [by apply split_nonempty in Hsplit|].
      intros [->|?]%elem_of_cons.
      * simpl. rewrite Hd. apply IH; [done|]. apply elem_of_cons. by left.
      * apply IH; [done|]. apply elem_of_cons. by right.
Qed.

Lemma split_lacks c s piece : piece ∈ Py.split c s → lacks c piece.
Proof.
  unfold lacks. revert piece.
  induction s as [|d s IH]; intros piece; simpl.
  - by intros ->%list_elem_of_singleton.
  - destruct (decide (d = c)) as [->|Hd].
    + intros [->|?]%elem_of_cons; [done | by apply IH].
    + destruct (Py.split c s) as [|h t] eqn:Hsplit;
        [by apply split_nonempty in Hsplit|].
      intros [->|?]%elem_of_cons.
      * simpl. rewrite bool_decide_eq_true_2 by done.
        apply IH, elem_of_cons. by left.
      * apply IH, elem_of_cons. by right.
Qed.

Lemma sforall_join p sep parts :
  Py.sforall p sep = true → Forall (λ s, Py.sforall p s = true) parts →
  Py.sforall p (Py.join sep parts) = true.
Proof.
  intros Hsep.
  induction 1 as [|s parts Hs _ IH]; [done|].
  destruct parts as [|s' parts]; [done|].
  change (Py.sforall p (s ++ sep ++ Py.join sep (s' :: parts))
          = true).
  by rewrite !sforall_app, Hs, Hsep, IH.
Qed.

Lemma collect_Forall (P : str → Prop) window parts :
  Forall P parts → Forall (λ raw, P (Py.strip raw)) window →
  Forall P (collect window parts).
Proof.
  intros Hparts Hwin. revert parts Hparts.
  induction Hwin as [|raw window Hraw _ IH]; intros parts Hparts; [done|].
  simpl. repeat case_match; try done; try by apply IH.
  apply IH, Forall_app. split; [done|]. by apply Forall_singleton.
Qed.
End trimming.

(** * Further properties of the extractor *)

Lemma parsed_method_ascii (content : str) (e : Endpoint) :
  Py.sforall Py.isascii content = true →
  e ∈ parse content → method e ∈ HTTP_METHODS.
Proof.
  intros Hascii (i & line & Hline & He)%parse_elem.
  apply parse_line_Some in He
    as (tok & ws & p & rest & Hs & Htok & _ & _ & _ & _ & _ & ->).
  cbn [method]. apply method_token_ascii; [done|].
  assert (Py.sforall Py.isascii (Py.strip line) = true) as Hstrip.
  { apply sforall_strip, (split_sforall _ 10%N content); [done|].
    by apply list_elem_of_lookup_2 in Hline. }
  rewrite Hs, sforall_app in Hstrip.
  by apply andb_true_iff in Hstrip as [? _].
Qed.

(** X1: on a text of ASCII characters the method of an extracted record is
    one of the seven method names, in upper case, whatever the case in the
    text.  (Outside ASCII the pattern also takes U+0130 and U+0131 for an
    [I] and U+017F for an [S]; the stored method is then what [str.upper]
    makes of the token.) *)
Theorem extracted_method_enumerated (content : str) (e : Endpoint) :
  Py.sforall Py.isascii content = true →
  e ∈ parse content → method e ∈ HTTP_METHODS.
Proof. apply parsed_method_ascii. Qed.

Lemma parse_loop_declared all_lines i rest :
  (λ e, (method e, path e)) <$> parse_loop all_lines i rest
  = omap declared_on rest.
Proof.
  revert i. induction rest as [|line rest IH]; intros i; [done|].
  cbn [parse_loop omap list_omap]. unfold declared_on at 1.
  unfold _parse_line_for_endpoint.
  destruct (ENDPOINT_match (Py.strip line)) as [[s g]|];
    cbn [fmap option_fmap option_map].
  - rewrite fmap_cons, IH. done.
  - apply IH.
Qed.

(** X2: the records follow the lines of the text: each line contributes
    the method and path it declares, or nothing, independently of the
    other lines; nothing is merged, dropped or reordered. *)
Theorem parse_line_by_line (content : str) :
  (λ e, (method e, path e)) <$> parse content
  = omap declared_on (Py.split 10 content).
Proof. apply parse_loop_declared. Qed.

(** X3: a declaration on the last line of the text, or an index past the
    end, has the empty description: the window is cut at the end of the
    text. *)
Theorem description_at_end (lines : list str) (i : nat) :
  (length lines ≤ S i)%nat → _extract_description lines i = "".
Proof.
  intros Hlen. unfold _extract_description, MAX_DESCRIPTION_LINES.
  by replace ((i + 1 + 3) `min` length lines - (i + 1)) with 0 by lia.
Qed.

Lemma placeholders_names s names name :
  Placeholders s names → name ∈ names →
  name ≠ "" ∧ Py.sforall Py.isword name = true
  ∧ ∃ pre post, s = pre ++ "{" ++ name ++ "}" ++ post.
Proof.
  intros H. induction H as [|w rest names Hne Hall _ IH|c s names _ _ IH].
  - by intros ?%elem_of_nil.
  - intros [->|Hin]%elem_of_cons.
    + split; [done|]. split; [done|]. by exists [], rest.
    + destruct (IH Hin) as (? & ? & pre & post & ->).
      split; [done|]. split; [done|].
      exists ("{"%cp :: w ++ "}"%cp :: pre), post.
      simpl. by rewrite <-(assoc_L (++)).
  - intros Hin. destruct (IH Hin) as (? & ? & pre & post & ->).
    split; [done|]. split; [done|]. by exists (c :: pre), post.
Qed.

(** X4: every name returned for a path is a non-empty run of word
    characters that stands between braces in the path. *)
Theorem path_parameter_names (path name : str) :
  name ∈ _extract_path_parameters path →
  name ≠ "" ∧ Py.sforall Py.isword name = true
  ∧ ∃ pre post, path = pre ++ "{" ++ name ++ "}" ++ post.
Proof.
  apply placeholders_names.
  apply (findall_placeholders (length path)). lia.
Qed.

(** X5: the description of an extracted record is a single line (it has
    no line feed) that neither begins nor ends with white space. *)
Theorem description_single_line (content : str) (e : Endpoint) :
  e ∈ parse content →
  lacks 10 (description e) ∧ trimmed (description e).
Proof.
  intros (i & line & _ & He)%parse_elem.
  apply parse_line_Some in He
    as (tok & ws & p & rest & _ & _ & _ & _ & _ & _ & _ & ->).
  cbn [description]. rewrite extract_description_window.
  split; [|apply strip_trimmed].
  apply sforall_strip, sforall_join; [done|].
  apply collect_Forall; [done|].
  apply Forall_forall. intros raw Hraw%subseteq_take%subseteq_drop.
  by apply sforall_strip, (split_lacks _ content).
Qed.

(** X6: white space around a line plays no part in its recognition:
    padding the line on either side yields the same record. *)
Theorem recognition_ignores_padding (a b line : str)
    (lines : list str) (i : nat) :
  all_space a → all_space b →
  _parse_line_for_endpoint (a ++ line ++ b) lines i
  = _parse_line_for_endpoint line lines i.
Proof.
  intros Ha Hb. unfold _parse_line_for_endpoint.
  by rewrite strip_padding.
Qed.

(** * Further properties of the normaliser *)

Lemma before_first_lacks c s : lacks c (before_first c s).
Proof.
  unfold lacks. induction s as [|d s IH]; [done|]. simpl.
  destruct (decide (d = c)); [done|]. simpl.
  by rewrite bool_decide_eq_true_2.
Qed.

Lemma sforall_before_first p c s :
  Py.sforall p s = true → Py.sforall p (before_first c s) = true.
Proof.
  induction s as [|d s IH]; [done|]. simpl.
  intros [Hd Hs]%andb_true_iff.
  destruct (decide (d = c)); [done|]. simpl. by rewrite Hd, IH.
Qed.

(** X7: a tag is never empty and contains neither a slash nor an opening
    brace. *)
Theorem tag_shape (path : str) :
  _extract_tag_from_path path ≠ ""
  ∧ lacks "/"%cp (_extract_tag_from_path path)
  ∧ lacks "{"%cp (_extract_tag_from_path path).
Proof.
  unfold _extract_tag_from_path.
  destruct (Py.split "/"%cp path) as [|s0 [|segment segs]] eqn:Hsplit;
    [done..|].
  simpl. rewrite split_head_before_first. simpl.
  destruct (before_first "{"%cp segment) as [|c t] eqn:Hb; [done|].
  cbn [Py.truthy]. rewrite <-Hb. split; [by rewrite Hb|]. split.
  - apply sforall_before_first, (split_lacks _ path).
    rewrite Hsplit. apply elem_of_cons. right. apply elem_of_cons. by left.
  - apply before_first_lacks.
Qed.

Lemma literal_segment_nonempty path segment :
  segment ∈ literal_segments path → segment ≠ "".
Proof. by intros [[? _] _]%list_elem_of_filter. Qed.

(** X8: an operationId is the lower-cased method, an underscore and a
    non-empty rest. *)
Theorem operation_id_shape (e : Endpoint) :
  ∃ suffix, suffix ≠ ""
    ∧ _generate_operation_id e = Py.lower (method e) ++ "_" ++ suffix.
Proof.
  unfold _generate_operation_id. rewrite extract_path_segments_literal.
  destruct (literal_segments (path e)) as [|resource more] eqn:Hsegs.
  { by exists "root". }
  assert (resource ≠ "") as Hres.
  { apply (literal_segment_nonempty (path e)). rewrite Hsegs.
    apply elem_of_cons. by left. }
  destruct resource as [|c resource]; [done|].
  destruct (parameters e) as [|first ps]; simpl.
  - destruct more as [|seg more]; simpl.
    + by exists (c :: resource).
    + by exists ((c :: resource) ++ "_"
                 ++ default "" (last (seg :: more))).
  - by exists ((c :: resource) ++ "_by_" ++ first).
Qed.

(** X9: with a path parameter present, the operationId is made of the
    lower-cased method, the first literal segment and the first parameter
    name and of nothing else; two endpoints that agree on these three have
    the same operationId, whatever else their paths hold. *)
Theorem operation_id_collision (e1 e2 : Endpoint) (resource first : str) :
  Py.lower (method e1) = Py.lower (method e2) →
  head (literal_segments (path e1)) = Some resource →
  head (literal_segments (path e2)) = Some resource →
  head (parameters e1) = Some first →
  head (parameters e2) = Some first →
  _generate_operation_id e1 = _generate_operation_id e2.
Proof.
  unfold _generate_operation_id. rewrite !extract_path_segments_literal.
  intros -> Hs1 Hs2 Hp1 Hp2.
  destruct (literal_segments (path e1)) as [|r1 more1]; [done|].
  destruct (literal_segments (path e2)) as [|r2 more2]; [done|].
  destruct (parameters e1) as [|p1 ps1]; [done|].
  destruct (parameters e2) as [|p2 ps2]; [done|].
  simpl in *. by simplify_eq.
Qed.


(** X10: the operation object lists its entries in a fixed order:
    summary, operationId and tags first, then the description and the
    parameters when present, the responses last. *)
Theorem operation_key_order (e : Endpoint) :
  ∃ op, _create_operation e = VDict op
    ∧ Dict.keys op
      = (["summary"; "operationId"; "tags"]
         ++ (if decide (description e = "") then [] else ["description"])
         ++ (if decide (parameters e = []) then [] else ["parameters"])
         ++ ["responses"])%list.
Proof.
  destruct e as [m p d ps]. eexists. split; [reflexivity|].
  by destruct d, ps.
Qed.

(** ** The paths mapping as a dictionary *)

Section paths_dict.
Context {V : Type}.
Implicit Types (d : list (str * V)) (k : str) (v : V).

Lemma dict_set_NoDup k v d :
  NoDup (Dict.keys d) → NoDup (Dict.keys (Dict.set k v d)).
Proof.
  intros Hd. rewrite dict_keys_set. case_decide as Hk; [done|].
  apply NoDup_app. split; [done|]. split; [|apply NoDup_singleton].
  intros k' Hk' ->%list_elem_of_singleton. done.
Qed.

Lemma dict_set_nonempty k v d : Dict.set k v d ≠ [].
Proof. destruct d as [|[k' v'] d]; simpl; [done|]. by case_decide. Qed.
End paths_dict.

Lemma build_paths_step_well_formed paths e :
  paths_well_formed paths → paths_well_formed (build_paths_step paths e).
Proof.
  intros [Hkeys Hops]. unfold build_paths_step.
  set (paths1 := if negb (Dict.mem (path e) paths)
                 then Dict.set (path e) [] paths else paths).
  assert (NoDup (Dict.keys paths1)) as Hkeys1.
  { unfold paths1. destruct (negb _); [by apply dict_set_NoDup | done]. }
  assert (∀ p ops, Dict.get p paths1 = Some ops → NoDup (Dict.keys ops))
    as Hops1.
  { intros p ops. unfold paths1. destruct (negb _).
    - rewrite dict_get_set. case_decide.
      + intros [= <-]. apply NoDup_nil_2.
      + by intros [_ ?]%Hops.
    - by intros [_ ?]%Hops. }
  split; [by apply dict_set_NoDup|].
  intros p ops. rewrite dict_get_set. case_decide as Hp.
  - intros [= <-]. split; [apply dict_set_nonempty|].
    apply dict_set_NoDup.
    destruct (Dict.get (path e) paths1) as [inner|] eqn:Hinner;
      [by apply (Hops1 _ _ Hinner) | apply NoDup_nil_2].
  - unfold paths1. destruct (negb _).
    + rewrite dict_get_set_ne by done. apply Hops.
    + apply Hops.
Qed.

(** X11: the paths mapping is a dictionary: no path occurs twice among
    its keys, and under every path the method mapping is not empty and has
    no method twice. *)
Theorem build_paths_well_formed (endpoints : list Endpoint) :
  paths_well_formed (_build_paths endpoints).
Proof.
  unfold _build_paths.
  assert (paths_well_formed []) as Hinit.
  { split; [apply NoDup_nil_2 | done]. }
  revert Hinit. generalize ([] : list (str * list (str * value))).
  induction endpoints as [|e endpoints IH]; intros paths Hpaths; [done|].
  apply IH. by apply build_paths_step_well_formed.
Qed.

Lemma elem_of_first_occurrences x l : x ∈ first_occurrences l ↔ x ∈ l.
Proof.
  induction l as [|y l IH]; [done|]. cbn [first_occurrences].
  rewrite !elem_of_cons, list_elem_of_filter, IH.
  destruct (decide (x = y)) as [->|Hne]; [by split; left|].
  split; [intros [?|[_ ?]]; [done | by right] | intros [?|?]; [done|]].
  right. by split.
Qed.

Lemma last_declared_Some p m endpoints e :
  last_declared p m endpoints = Some e →
  e ∈ endpoints ∧ path e = p ∧ Py.lower (method e) = m.
Proof.
  intros He%last_Some_elem_of.
  by apply list_elem_of_filter in He as [[? ?] ?].
Qed.

Lemma last_declared_is_Some p m endpoints :
  is_Some (last_declared p m endpoints)
  ↔ ∃ e, e ∈ endpoints ∧ path e = p ∧ Py.lower (method e) = m.
Proof.
  split.
  - intros [e He]. exists e. by apply last_declared_Some.
  - intros (e & Hin & Hp & Hm). unfold last_declared.
    apply last_is_Some. intros Hnil.
    assert (e ∈ filter (λ e, path e = p ∧ Py.lower (method e) = m)
              endpoints) as Hf by by apply list_elem_of_filter.
    rewrite Hnil in Hf. by apply elem_of_nil in Hf.
Qed.

(** X12: the paths mapping holds what was declared and nothing else: a
    path is a key exactly when an endpoint has it, and a method key is
    present under it exactly when an endpoint has that path and, in lower
    case, that method. *)
Theorem build_paths_domain (endpoints : list Endpoint) :
  (∀ p, p ∈ Dict.keys (_build_paths endpoints)
        ↔ ∃ e, e ∈ endpoints ∧ path e = p)
  ∧ ∀ p m,
      is_Some (Dict.get p (_build_paths endpoints) ≫= Dict.get m)
      ↔ ∃ e, e ∈ endpoints ∧ path e = p ∧ Py.lower (method e) = m.
Proof.
  unfold _build_paths. split.
  - intros p. rewrite build_paths_keys_from. cbn [Dict.keys fmap list_fmap app].
    rewrite list_elem_of_filter, elem_of_first_occurrences,
      list_elem_of_fmap.
    split.
    + intros [_ (e & -> & ?)]. by exists e.
    + intros (e & ? & <-). split; [apply not_elem_of_nil | by exists e].
  - intros p m. rewrite build_paths_lookup_from, <-last_declared_is_Some.
    destruct (last_declared p m endpoints);
      [split; by eexists | split; by intros [? ?]].
Qed.

(** X13: the tags section depends on the endpoints only through the set
    of their paths: order, repetition, methods, descriptions and the title
    play no part. *)
Theorem tags_depend_on_paths (endpoints endpoints' : list Endpoint)
    (title title' : str) :
  (∀ p, p ∈ path <$> endpoints ↔ p ∈ path <$> endpoints') →
  vget "tags" (normalize endpoints title)
  = vget "tags" (normalize endpoints' title').
Proof.
  intros Hpaths.
  change (Some (VList (_build_tags_section (_extract_tags endpoints)))
          = Some (VList (_build_tags_section (_extract_tags endpoints')))).
  do 3 f_equal. apply set_eq. intros tag. unfold _extract_tags.
  rewrite !elem_of_list_to_set, !list_elem_of_fmap.
  split; intros (e & -> & He).
  - assert (path e ∈ path <$> endpoints') as (e' & Heq & ?)%list_elem_of_fmap.
    { apply Hpaths, list_elem_of_fmap. by exists e. }
    exists e'. by rewrite Heq.
  - assert (path e ∈ path <$> endpoints) as (e' & Heq & ?)%list_elem_of_fmap.
    { apply Hpaths, list_elem_of_fmap. by exists e. }
    exists e'. by rewrite Heq.
Qed.


(** * Processing a text *)

Lemma lower_method_key M : M ∈ HTTP_METHODS → Py.lower M ∈ method_keys.
Proof.
  unfold HTTP_METHODS, method_keys. intros HM.
  repeat (apply elem_of_cons in HM as [->|HM];
          [repeat (first [by apply elem_of_cons; left
                         | apply elem_of_cons; right])|]).
  by apply elem_of_nil in HM.
Qed.

(** X14: in the document made from a text, every key of the paths mapping
    begins with a slash, has at least two characters and no white space;
    and when the text is ASCII every method key under it is one of the
    seven lower-case method names. *)
Theorem processed_document_keys (content title p m : str) (op : value) :
  (vget "paths" (_process_content content title).1 ≫= vget p) ≫= vget m
  = Some op →
  head p = Some "/"%cp
  ∧ (2 ≤ length p)%nat
  ∧ no_space p
  ∧ (Py.sforall Py.isascii content = true → m ∈ method_keys).
Proof.
  cbn [_process_content fst]. rewrite normalize_paths.
  unfold _build_paths. rewrite build_paths_lookup_from.
  destruct (last_declared p m (parse content)) as [e|] eqn:He; [|done].
  intros _. apply last_declared_Some in He as (Hin & <- & <-).
  split; [|split; [|split]].
  4:{ intros Hascii. by apply lower_method_key, (parsed_method_ascii content). }
  all: apply parse_elem in Hin as (i & line & _ & He);
    apply parse_line_Some in He
      as (tok & ws & p' & rest & _ & Htok & _ & _ & Hp & Hnsp & _ & ->);
    cbn [path]; try done.
  destruct p'; [done | simpl; lia].
Qed.

(** X15: the warning about a text without endpoints is printed exactly
    when the paths mapping of the document is empty. *)
Theorem process_warning (content title : str) :
  ((_process_content content title).2
   = ["Warning: No se detectaron endpoints en el archivo"]
   ↔ vget "paths" (_process_content content title).1 = Some (VDict []))
  ∧ ((_process_content content title).2 = []
     ↔ vget "paths" (_process_content content title).1 ≠ Some (VDict [])).
Proof.
  cbn [_process_content fst snd].
  change (vget "paths" (normalize (parse content) title))
    with (Some (VDict (prod_map id VDict <$> _build_paths (parse content)))).
  destruct (parse content) as [|e es] eqn:Hparse.
  - split; (split; [done|]); [done | by intros Hne].
  - assert (prod_map id VDict <$> _build_paths (e :: es) ≠ []) as Hne.
    { intros Hnil%fmap_nil_inv.
      assert (path e ∈ Dict.keys (_build_paths (e :: es))) as Hin.
      { unfold _build_paths. rewrite build_paths_keys_from.
        cbn [Dict.keys fmap list_fmap app first_occurrences].
        rewrite filter_cons_True by apply not_elem_of_nil.
        apply elem_of_cons. by left. }
      rewrite Hnil in Hin. by apply elem_of_nil in Hin. }
    cbn [Py.nonempty negb]. split; split.
    + done.
    + by intros [= ?].
    + by intros _ [= ?].
    + done.
Qed.

End properties.

(** * Instances

    Each property with a premise, at a text of ASCII characters. *)

#[local] Existing Instance ascii_only.


Lemma description_extraction_witness :
  description
    (mkEndpoint "GET" "/a" "first line second" [])
  = following_description
      ["GET /a"; "  first line "; "second"; ""; "not read"] 0.
Proof.
  apply (description_extraction "GET /a"
           ["GET /a"; "  first line "; "second"; ""; "not read"] 0).
  vm_compute. reflexivity.
Defined.

Lemma extracted_path_shape_witness :
  (2 ≤ length "/users/{id}")%nat
  ∧ head "/users/{id}" = Some "/"%cp
  ∧ no_space "/users/{id}"
  ∧ ∀ lines i, _parse_line_for_endpoint "GET /" lines i = None.
Proof.
  apply (extracted_path_shape "get /users/{id}"
           (mkEndpoint "GET" "/users/{id}" "" ["id"])).
  assert (parse "get /users/{id}"
          = [mkEndpoint "GET" "/users/{id}" "" ["id"]]) as ->
    by (vm_compute; reflexivity).
  apply elem_of_cons. by left.
Defined.

Lemma no_declarations_witness :
  parse "# Notes" = []
  ∧ normalize (parse "# Notes") "Demo"
    = VDict [("openapi", VStr "3.0.0");
             ("info", VDict [("title", VStr "Demo");
                             ("version", VStr "1.0.0");
                             ("description", VStr DEFAULT_API_DESCRIPTION)]);
             ("servers",
              VList [VDict [("url", VStr "https://api.example.com");
                            ("description",
                             VStr DEFAULT_SERVER_DESCRIPTION)]]);
             ("tags", VList []);
             ("paths", VDict [])].
Proof.
  apply (no_declarations "# Notes" "Demo").
  intros [|i] line Hline; [|done].
  injection Hline as <-. vm_compute. reflexivity.
Defined.

Lemma parameters_from_path_witness :
  ["id"; "id"] = _extract_path_parameters "/a/{id}/{b-c}/{id}"
  ∧ ∀ names,
      Placeholders "/a/{id}/{b-c}/{id}" names ↔ names = ["id"; "id"].
Proof.
  apply (parameters_from_path "GET /a/{id}/{b-c}/{id}"
           (mkEndpoint "GET" "/a/{id}/{b-c}/{id}" "" ["id"; "id"])).
  assert (parse "GET /a/{id}/{b-c}/{id}"
          = [mkEndpoint "GET" "/a/{id}/{b-c}/{id}" "" ["id"; "id"]]) as ->
    by (vm_compute; reflexivity).
  apply elem_of_cons. by left.
Defined.

Lemma operation_tag_listed_witness :
  ∃ tag tags,
    vget "tags" (_create_operation (mkEndpoint "GET" "/users/{id}" "" ["id"]))
    = Some (VList [VStr tag])
    ∧ vget "tags"
        (normalize [mkEndpoint "GET" "/users/{id}" "" ["id"]] "Demo")
      = Some (VList tags)
    ∧ VDict [("name", VStr tag)] ∈ tags.
Proof.
  apply (operation_tag_listed
           [mkEndpoint "GET" "/users/{id}" "" ["id"]] "Demo"
           "/users/{id}" "get").
  vm_compute. reflexivity.
Defined.

Lemma extracted_method_enumerated_witness : "DELETE" ∈ HTTP_METHODS.
Proof.
  apply (extracted_method_enumerated "dElEtE /items/{id}"
           (mkEndpoint "DELETE" "/items/{id}" "" ["id"])).
  - reflexivity.
  - assert (parse "dElEtE /items/{id}"
            = [mkEndpoint "DELETE" "/items/{id}" "" ["id"]]) as ->
      by (vm_compute; reflexivity).
    apply elem_of_cons. by left.
Defined.

Lemma description_at_end_witness :
  _extract_description ["# API"; "GET /a"] 1 = "".
Proof. apply description_at_end. simpl. lia. Defined.

Lemma path_parameter_names_witness :
  "user_id" ≠ "" ∧ Py.sforall Py.isword "user_id" = true
  ∧ ∃ pre post,
      "/u/{user_id}/x" = pre ++ "{" ++ "user_id" ++ "}" ++ post.
Proof.
  apply (path_parameter_names "/u/{user_id}/x" "user_id").
  assert (_extract_path_parameters "/u/{user_id}/x" = ["user_id"]) as ->
    by (vm_compute; reflexivity).
  apply elem_of_cons. by left.
Defined.

Lemma description_single_line_witness :
  lacks 10 "first second" ∧ trimmed "first second".
Proof.
  apply (description_single_line
           ("GET /a" ++ 10%N :: "  first " ++ 10%N :: "second ")
           (mkEndpoint "GET" "/a" "first second" [])).
  assert (parse ("GET /a" ++ 10%N :: "  first " ++ 10%N :: "second ")
          = [mkEndpoint "GET" "/a" "first second" []]) as ->
    by (vm_compute; reflexivity).
  apply elem_of_cons. by left.
Defined.

Lemma recognition_ignores_padding_witness :
  _parse_line_for_endpoint ("   " ++ "GET /a" ++ [9%N; 32%N]) [] 0
  = _parse_line_for_endpoint "GET /a" [] 0.
Proof. by apply recognition_ignores_padding. Defined.

Lemma operation_id_collision_witness :
  _generate_operation_id (mkEndpoint "GET" "/users/{id}" "" ["id"])
  = _generate_operation_id
      (mkEndpoint "GET" "/users/{id}/posts/{post}" "" ["id"; "post"]).
Proof.
  by apply (operation_id_collision _ _ "users" "id").
Defined.

Lemma tags_depend_on_paths_witness :
  vget "tags"
    (normalize [mkEndpoint "GET" "/b" "" []; mkEndpoint "GET" "/a" "x" []]
       "One")
  = vget "tags"
      (normalize [mkEndpoint "PUT" "/a" "" []; mkEndpoint "GET" "/b" "" [];
                  mkEndpoint "POST" "/a" "y" []] "Two").
Proof.
  apply tags_depend_on_paths. intros p.
  cbn [fmap list_fmap path]. rewrite !elem_of_cons, !elem_of_nil. tauto.
Defined.

Lemma processed_document_keys_witness :
  head "/users/{id}" = Some "/"%cp
  ∧ (2 ≤ length "/users/{id}")%nat
  ∧ no_space "/users/{id}"
  ∧ (Py.sforall Py.isascii "Patch /users/{id}" = true
     → "patch" ∈ method_keys).
Proof.
  apply (processed_document_keys "Patch /users/{id}" "Demo"
           "/users/{id}" "patch"
           (_create_operation (mkEndpoint "PATCH" "/users/{id}" "" ["id"]))).
  vm_compute. reflexivity.
Defined.
